(** * PixCap icon scraper: discovery, resolution and download

    A shallow embedding of the three scraper scripts of the repository
    ([index.js], [find-items.js] and the direct downloaders that share
    [createResponseHandler]/[downloadGlbFile]) and the properties of the
    discovery-resolve-download pipeline that hold or fail on them.

    The browser, the network and the clock are the environment: every
    observation the scripts make of them ([page.goto], [page.evaluate],
    [axios.get], ...) is read from an oracle [Env], indexed by the number of
    interactions performed so far, so that every theorem quantified over
    [Env] covers every behaviour of the outside world. *)

From stdpp Require Import gmap strings list fin_maps.
From Stdlib Require Import Ascii.

(** ** Properties of texts *)

Module Text.

(** The character [c] occurs in [s]. *)
Fixpoint has_char (c : ascii) (s : string) : bool :=
  match s with
  | EmptyString => false
  | String x s' => Ascii.eqb x c || has_char c s'
  end.

(** Every character of [s] is of class [cls]. *)
Fixpoint all_chars (cls : ascii → bool) (s : string) : bool :=
  match s with
  | EmptyString => true
  | String x s' => cls x && all_chars cls s'
  end.

End Text.

(** ** JavaScript string and array primitives used by the scripts *)

Module JS.

(** [s.startsWith(p)] *)
Definition startsWith (s p : string) : bool := String.prefix p s.

(** [s.endsWith(p)] *)
Definition endsWith (s p : string) : bool :=
  String.prefix (String.rev p) (String.rev s).

(** [s.includes(sub)] *)
Definition includes (s sub : string) : bool :=
  match String.index 0 sub s with
  | Some _ => true
  | None => false
  end.

(** [s.split(sep)] for a one-character separator: never returns the empty
    array. [cur] accumulates the current piece in reverse. *)
Fixpoint split_go (sep : ascii) (cur : string) (s : string) : list string :=
  match s with
  | EmptyString => [String.rev cur]
  | String c s' =>
      if Ascii.eqb c sep
      then String.rev cur :: split_go sep EmptyString s'
      else split_go sep (String c cur) s'
  end.

Definition split (sep : ascii) (s : string) : list string :=
  split_go sep EmptyString s.

(** [a.pop()] on the result of a [split] (which is never empty) *)
Definition pop (a : list string) : string := List.last a "".

(** [a[0]] on the result of a [split] *)
Definition first (a : list string) : string := List.hd "" a.

(** Truthiness of a value that is a string, [undefined] or [null]. *)
Definition truthy (v : option string) : bool :=
  match v with
  | Some s => negb (String.eqb s "")
  | None => false
  end.

(** [a.indexOf(v)], with [length a] standing for [-1]. *)
Fixpoint indexOf (a : list string) (v : string) : nat :=
  match a with
  | [] => 0
  | x :: a' => if String.eqb x v then 0 else S (indexOf a' v)
  end.

(** [a.filter((v, i, arr) => arr.indexOf(v) === i)], the array [arr] being
    the whole array and [i] the index of [v] in it. *)
Fixpoint filter_first_go (arr : list string) (i : nat) (a : list string)
  : list string :=
  match a with
  | [] => []
  | v :: a' =>
      if Nat.eqb (indexOf arr v) i
      then v :: filter_first_go arr (S i) a'
      else filter_first_go arr (S i) a'
  end.

Definition filter_first (a : list string) : list string :=
  filter_first_go a 0 a.

(** [a.includes(v)] on an array of strings *)
Definition array_includes (a : list string) (v : string) : bool :=
  existsb (String.eqb v) a.

(** [if (!a.includes(v)) a.push(v)]; also [Set.prototype.add], a [Set]
    being iterated in insertion order. *)
Definition push_unique (a : list string) (v : string) : list string :=
  if array_includes a v then a else a ++ [v].

(** A path segment that can name a file: not empty, not [.], not [..], no
    longer than the 255 bytes a name can have, and without the character of
    code 0, which no path may hold. *)
Definition names_a_file (segment : string) : bool :=
  negb (String.eqb segment "" || String.eqb segment "."
        || String.eqb segment "..")
  && Nat.leb (String.length segment) 255
  && negb (Text.has_char "000" segment).

(** [o[key] = value] on an object that [JSON.parse] made, its keys being
    own properties: the key [__proto__] that is not one of them goes to the
    setter of [Object.prototype], which ignores a string. *)
Definition assign (o : gmap string string) (key value : string)
  : gmap string string :=
  if String.eqb key "__proto__" && negb (bool_decide (is_Some (o !! key)))
  then o
  else <[key := value]> o.

End JS.

(** ** Network responses *)

(** What [await response.json()] gives: it throws on a body that is not
    JSON; otherwise only the two fields the scripts read matter. *)
Inductive Body :=
| BodyNotJson
| BodyNull
| BodyObject (presignedUrl : option string) (contentType : option string).

Record Response := mkResponse {
  r_url : string;
  r_body : Body
}.

(** ** Files *)

(** A file holds downloaded bytes, or text: the text of a JSON object (what
    the scripts write as mapping files, the values of the keys being
    strings), the text of a JSON array, the text of any other JSON value
    ([null], a number, a string, [true], [false]), or text that
    [JSON.parse] rejects. *)
Inductive Content :=
| Binary (data : string)
| JsonObject (entries : gmap string string)
| JsonArray (text : string)
| JsonScalar (text : string)
| Garbled (text : string).

(** The disk, keyed by directory and file name. *)
Abbreviation Disk := (gmap (string * string) Content).

(** The names of the files of a directory. *)
Definition readdir (d : Disk) (dir : string) : list string :=
  List.map (λ kv, snd (fst kv))
    (List.filter (λ kv, String.eqb (fst (fst kv)) dir) (map_to_list d)).

(** ** Observable events, in program order *)

Inductive Event :=
| EvOn (id : nat) (slug : string)        (* page.on('response', h) *)
| EvOff (id : nat)                       (* page.off / page.removeListener *)
| EvGoto (url : string)                  (* page.goto(url) *)
| EvWaitForNavigation                    (* page.waitForNavigation() *)
| EvTimeout (ms : N)                     (* waitForTimeout / setTimeout *)
| EvClickNext                            (* nextButton.click() *)
| EvPageFetch (url : string)             (* fetch(url) inside the page *)
| EvAxiosGet (url : string)              (* axios.get(url) *)
| EvWriteFile (dir name : string).       (* fs.writeFile *)

(** ** The environment *)

(** The first argument of every field is the clock: the number of events
    emitted so far. *)
Record Env := mkEnv {
  (** responses received while [page.goto url] loads, and whether the load
      settles before the timeout *)
  goto_load : nat → string → list Response * bool;
  (** the same for [page.waitForNavigation] *)
  nav_wait : nat → list Response * bool;
  (** responses received during a fixed sleep *)
  idle_wait : nat → list Response;
  (** [axios.get url]: the body, or [None] when the request fails *)
  axios_get : nat → string → option string;
  (** [fetch(url)] run inside the page, then [response.json()];
      [BodyNotJson] also stands for a response that is not [ok] *)
  page_fetch : nat → string → Body;
  (** the responses the page receives while that [fetch(url)] runs, the
      response to the fetch itself among them: the listeners see them as
      they see those of a navigation *)
  fetch_load : nat → string → list Response;
  (** [path.join(dir, name)] for a [name] that holds a [/]: the directory
      the path resolves to, when that directory exists; [None] when it does
      not, and [fs.writeFile] throws *)
  fs_nested : nat → string → string → option string;
  (** [a[key] = value] on the array that [JSON.parse] made of a text,
      followed by [JSON.stringify(a, null, 2)]: the new text, an index
      having extended the array, [length] having resized it, any other key
      having been dropped; [None] when one of the two throws *)
  array_assign : string → string → string → option string
}.

(** The rendered document at each time, [D] being the type of what
    [page.evaluate] can see of it. *)
Definition Dom (D : Type) : Type := nat → D.

(** ** The state of a run *)

(** [H] is the type of the closures registered as response listeners and [M]
    the script's own memory. Listeners are kept in registration order, each
    with the identity it was given at registration. *)
Record World (H M : Type) := mkWorld {
  listeners : list (nat * H);
  next_id : nat;
  mem : M;
  disk : Disk;
  trace : list Event
}.
Arguments mkWorld {H M}.
Arguments listeners {H M}.
Arguments next_id {H M}.
Arguments mem {H M}.
Arguments disk {H M}.
Arguments trace {H M}.

Definition clock {H M : Type} (w : World H M) : nat := length (trace w).

Definition emit {H M : Type} (e : Event) (w : World H M) : World H M :=
  mkWorld (listeners w) (next_id w) (mem w) (disk w) (trace w ++ [e]).

Definition set_mem {H M : Type} (m : M) (w : World H M) : World H M :=
  mkWorld (listeners w) (next_id w) m (disk w) (trace w).

Definition set_disk {H M : Type} (d : Disk) (w : World H M) : World H M :=
  mkWorld (listeners w) (next_id w) (mem w) d (trace w).

Definition set_listeners {H M : Type} (ls : list (nat * H)) (n : nat) (w : World H M)
  : World H M :=
  mkWorld ls n (mem w) (disk w) (trace w).

(** ** Programs: state passing with exceptions *)

Inductive Completion (A : Type) :=
| Normal (a : A)
| Throw.
Arguments Normal {A}.
Arguments Throw {A}.

Definition Prog (S A : Type) : Type := S → Completion A * S.

Definition ret {S A : Type} (a : A) : Prog S A := λ w, (Normal a, w).

Definition throw {S A : Type} : Prog S A := λ w, (Throw, w).

Definition bind {S A B : Type} (c : Prog S A) (k : A → Prog S B) : Prog S B :=
  λ w, match c w with
       | (Normal a, w') => k a w'
       | (Throw, w') => (Throw, w')
       end.

(** [try { body } catch (e) { handler }] *)
Definition try_catch {S A : Type} (body handler : Prog S A) : Prog S A :=
  λ w, match body w with
       | (Normal a, w') => (Normal a, w')
       | (Throw, w') => handler w'
       end.

(** A state change that cannot throw. *)
Definition act {S : Type} (f : S → S) : Prog S unit := λ w, (Normal tt, f w).

(** Reading the state. *)
Definition gets {S A : Type} (f : S → A) : Prog S A := λ w, (Normal (f w), w).

(** The state a program leaves behind. *)
Definition exec {S A : Type} (c : Prog S A) (w : S) : S := snd (c w).

Declare Scope prog_scope.
Delimit Scope prog_scope with prog.
Notation "x <- c1 ;; c2" := (bind c1 (λ x, c2))
  (at level 20, c1 at level 99, c2 at level 200, only parsing) : prog_scope.
Notation "c1 ;; c2" := (bind c1 (λ _, c2))
  (at level 100, c2 at level 200, only parsing, right associativity)
  : prog_scope.

(** [for (const x of xs) { body x }] *)
Fixpoint for_of {S A : Type} (xs : list A) (body : A → Prog S unit) : Prog S unit :=
  match xs with
  | [] => ret tt
  | x :: xs' => (body x ;; for_of xs' body)%prog
  end.

(** ** Browser page and file system primitives *)

(** A closure type that can be registered as a response listener: the slug
    it was created for, and what calling it does. A listener is an [async]
    function, so nothing it throws reaches the code that navigates. *)
Class Listener (H M : Type) := {
  listener_slug : H → string;
  invoke : Env → H → Response → World H M → World H M
}.

Section Page.
Context {H M : Type} `{!Listener H M}.
Variable env : Env.

(** [page.on('response', h)] *)
Definition page_on (h : H) : Prog (World H M) nat :=
  λ w, let id := next_id w in
       (Normal id,
        emit (EvOn id (listener_slug h))
             (set_listeners (listeners w ++ [(id, h)]) (S id) w)).

(** [page.removeListener('response', h)], [page.off('response', h)] *)
Definition page_removeListener (id : nat) : Prog (World H M) unit :=
  act (λ w, emit (EvOff id)
              (set_listeners
                 (List.filter (λ l, negb (Nat.eqb (fst l) id)) (listeners w))
                 (next_id w) w)).

(** A response arrives: every listener registered at that moment is
    called, in registration order. The listeners are [async] functions;
    each call is followed to its end before the next one starts, as happens
    when what a listener awaits comes back before the next response and
    before the navigation or the sleep it was called in is over. Calls that
    overlap each other or the main flow are not followed. *)
Definition deliver (r : Response) (w : World H M) : World H M :=
  fold_left (λ w' l, invoke env (snd l) r w') (listeners w) w.

Definition deliver_all (rs : list Response) (w : World H M) : World H M :=
  fold_left (λ w' r, deliver r w') rs w.

(** [await page.goto(url, { waitUntil, timeout })] *)
Definition page_goto (url : string) : Prog (World H M) unit :=
  λ w, let '(rs, settled) := goto_load env (clock w) url in
       let w' := deliver_all rs (emit (EvGoto url) w) in
       (if settled then Normal tt else Throw, w').

(** [await page.waitForNavigation({ waitUntil, timeout })] *)
Definition page_waitForNavigation : Prog (World H M) unit :=
  λ w, let '(rs, settled) := nav_wait env (clock w) in
       let w' := deliver_all rs (emit EvWaitForNavigation w) in
       (if settled then Normal tt else Throw, w').

(** [await page.waitForTimeout(ms)],
    [await new Promise(resolve => setTimeout(resolve, ms))] *)
Definition page_waitForTimeout (ms : N) : Prog (World H M) unit :=
  act (λ w, deliver_all (idle_wait env (clock w)) (emit (EvTimeout ms) w)).

(** [await page.evaluate(f)], [f] reading the document. *)
Definition page_evaluate {D A : Type} (dom : Dom D) (f : D → A)
  : Prog (World H M) A :=
  gets (λ w, f (dom (clock w))).

(** [await axios.get(url, { responseType: 'arraybuffer' })] *)
Definition axios (url : string) : Prog (World H M) string :=
  λ w, match axios_get env (clock w) url with
       | Some data => (Normal data, emit (EvAxiosGet url) w)
       | None => (Throw, emit (EvAxiosGet url) w)
       end.

(** [fs.readdirSync(dir)] *)
Definition fs_readdirSync (dir : string) : Prog (World H M) (list string) :=
  gets (λ w, readdir (disk w) dir).

(** Where [path.join(dir, name)] points on a POSIX system, [dir] being a
    directory that exists: a name without [/] is a file of [dir], unless it
    is empty, [.] or [..], which name [dir] itself or its parent; a name
    with [/] leaves [dir], its last segment being the name of the file.
    [None]: there is no such place for a file, or the name is not one a
    file can have. *)
Definition fs_target (t : nat) (dir name : string) : option (string * string) :=
  if Text.has_char "/" name then
    let base := JS.pop (JS.split "/" name) in
    if JS.names_a_file base
    then match fs_nested env t dir name with
         | Some d => Some (d, base)
         | None => None
         end
    else None
  else if JS.names_a_file name then Some (dir, name) else None.

(** [await fs.writeFile(path.join(dir, name), content)], [dir] being a
    directory the script has made sure of. It throws when the path leaves
    [dir] for a directory that does not exist, names a directory, or ends
    in a name no file can have. *)
Definition fs_writeFile (dir name : string) (c : Content)
  : Prog (World H M) unit :=
  λ w, match fs_target (clock w) dir name with
       | Some (d, f) =>
           (Normal tt, emit (EvWriteFile d f) (set_disk (<[(d, f) := c]> (disk w)) w))
       | None => (Throw, w)
       end.

(** [fs.existsSync(p) ? fs.readFileSync(p) : undefined] *)
Definition fs_readFile (dir name : string) : Prog (World H M) (option Content) :=
  gets (λ w, disk w !! (dir, name)).

End Page.

(** ** Constants shared by the scripts *)

Definition PRESIGNED_ENDPOINT : string :=
  "/api/v1/assetmanager/presigned/loadProject/".

(** [`https://pixcap.com/design/create?slug=${slug}`] *)
Definition create_url (slug : string) : string :=
  "https://pixcap.com/design/create?slug=" +:+ slug.

(** [url.split('/').pop().split('?')[0]] *)
Definition uuid_of_url (url : string) : string :=
  JS.first (JS.split "?"%char (JS.pop (JS.split "/"%char url))).

(** [`${slug}__${uuid}.glb`] *)
Definition glb_filename (slug uuid : string) : string :=
  slug +:+ "__" +:+ uuid +:+ ".glb".

(** [await response.json()] *)
Definition response_json {S : Type} (r : Response) : Prog S Body :=
  match r_body r with
  | BodyNotJson => throw
  | b => ret b
  end.

(** ** Regular expressions of the scripts, as matchers

    Each function returns what [s.match(re)] leaves in capture group 1, or
    [None] when the expression does not match. *)

Module Regex.

(** The longest prefix of [s] made of characters of class [cls] that is
    followed by the literal [lit]: a greedy [cls*] that backtracks. *)
Fixpoint greedy_then (cls : ascii → bool) (lit : string) (s : string)
  : option string :=
  let here := if String.prefix lit s then Some "" else None in
  match s with
  | EmptyString => here
  | String c s' =>
      if cls c
      then match greedy_then cls lit s' with
           | Some p => Some (String c p)
           | None => here
           end
      else here
  end.

(** The same for [cls+]: the prefix is not empty. *)
Definition greedy1_then (cls : ascii → bool) (lit : string) (s : string)
  : option string :=
  match greedy_then cls lit s with
  | Some EmptyString => None
  | r => r
  end.

Fixpoint take_while (cls : ascii → bool) (s : string) : string :=
  match s with
  | EmptyString => EmptyString
  | String c s' => if cls c then String c (take_while cls s') else EmptyString
  end.

Definition not_char (x : ascii) (c : ascii) : bool := negb (Ascii.eqb c x).

(** [/slug=([^&]+)/] *)
Fixpoint slug_param (s : string) : option string :=
  match s with
  | EmptyString => None
  | String _ s' =>
      if String.prefix "slug=" s
      then match take_while (not_char "&") (String.substring 5 (String.length s) s) with
           | EmptyString => slug_param s'
           | cap => Some cap
           end
      else slug_param s'
  end.

(** [/\/([^\/]+)-3d-icon/] *)
Fixpoint src_slug (s : string) : option string :=
  match s with
  | EmptyString => None
  | String c s' =>
      if Ascii.eqb c "/"
      then match greedy1_then (not_char "/") "-3d-icon" s' with
           | Some cap => Some cap
           | None => src_slug s'
           end
      else src_slug s'
  end.

(** [[a-z0-9-]] *)
Definition lower_digit_dash (c : ascii) : bool :=
  let n := nat_of_ascii c in
  (Nat.leb 97 n && Nat.leb n 122) || (Nat.leb 48 n && Nat.leb n 57)
  || Nat.eqb n 45.

(** [/([a-z0-9-]+)-3d-icon/] *)
Fixpoint alt_slug (s : string) : option string :=
  match greedy1_then lower_digit_dash "-3d-icon" s with
  | Some cap => Some cap
  | None =>
      match s with
      | EmptyString => None
      | String _ s' => alt_slug s'
      end
  end.

Definition lower (c : ascii) : ascii :=
  let n := nat_of_ascii c in
  if Nat.leb 65 n && Nat.leb n 90 then ascii_of_nat (n + 32) else c.

Fixpoint lower_string (s : string) : string :=
  match s with
  | EmptyString => EmptyString
  | String c s' => String (lower c) (lower_string s')
  end.

(** [[a-f0-9-]] under the [i] flag *)
Definition hex_dash_ci (c : ascii) : bool :=
  let n := nat_of_ascii (lower c) in
  (Nat.leb 97 n && Nat.leb n 102) || (Nat.leb 48 n && Nat.leb n 57)
  || Nat.eqb n 45.

(** [/\/design\/([a-f0-9-]+)/i] *)
Fixpoint design_uuid (s : string) : option string :=
  match s with
  | EmptyString => None
  | String _ s' =>
      if String.prefix "/design/" (lower_string s)
      then match take_while hex_dash_ci (String.substring 8 (String.length s) s) with
           | EmptyString => design_uuid s'
           | cap => Some cap
           end
      else design_uuid s'
  end.

End Regex.


(** ** [index.js]: the pack scraper *)

Module IndexJs.

Definition OUTPUT_DIR : string := "glb".

(** [path.join(OUTPUT_DIR, packSlug)], [packSlug] being the last segment
    of a path: an empty segment and [.] give the output directory itself,
    [..] the directory of the script, here [.]. *)
Definition packDir_of (packSlug : string) : string :=
  if String.eqb packSlug "" || String.eqb packSlug "." then OUTPUT_DIR
  else if String.eqb packSlug ".." then "."
  else OUTPUT_DIR +:+ "/" +:+ packSlug.

Definition MAPPING_FILE : string := "slug-uuid-mapping.json".

(** What the inline [responseHandler] closes over. *)
Record Closure := mkClosure {
  iconSlug : string;
  packDir : string
}.

(** The script's memory is the module-level [slugToUuidMap]. *)
Abbreviation Memory := (gmap string string).

(** *** What [page.evaluate] reads of a page *)

(** The outcome of locating [window.__NUXT__ = {...}] in a script body and
    evaluating it: the expression does not match, evaluation (or the
    mapping of the items) throws, or [state.pack.pack.items] (the empty
    array when the path is absent) is mapped to [icon.slug || icon.id]. *)
Inductive NuxtEval :=
| NuxtNoMatch
| NuxtThrows
| NuxtItems (slugs : list string).

Record Script := mkScript {
  textContent : string;
  nuxt : NuxtEval
}.

(** An element as seen by [[data-slug], [data-icon-slug]]. *)
Record Card := mkCard {
  data_slug : option string;
  data_icon_slug : option string
}.

Record Img := mkImg {
  src : option string;
  alt : option string
}.

Record Document := mkDocument {
  (** the pack paths found on the listing page *)
  packUrls : list string;
  (** every [<script>], in document order *)
  scripts : list Script;
  (** the [href] attribute of every [<a href>], in document order *)
  anchors : list string;
  (** every other element, with the two data attributes it may carry *)
  elements : list Card;
  (** every [<img>], in document order *)
  images : list Img;
  (** lines 62-66: no element links to [/login] *)
  isLoggedIn : bool
}.

(** [links.map(link => { match = href.match(/slug=([^&]+)/);
                         return match ? match[1] : null }).filter(Boolean)] *)
Definition slugs_of_links (links : list string) : list string :=
  omap Regex.slug_param links.

(** [document.querySelectorAll('a[href*="design/create?slug="]')] *)
Definition createLinks (d : Document) : list string :=
  List.filter (λ href, JS.includes href "design/create?slug=") (anchors d).

(** The loop over the scripts, lines 302-321: the first script that mentions
    the marker, matches and evaluates decides ([break]); a script that
    throws is skipped. *)
Fixpoint nuxt_iconData (ss : list Script) : list string :=
  match ss with
  | [] => []
  | s :: ss' =>
      if JS.includes (textContent s) "window.__NUXT__"
      then match nuxt s with
           | NuxtItems slugs => slugs
           | NuxtNoMatch | NuxtThrows => nuxt_iconData ss'
           end
      else nuxt_iconData ss'
  end.

(** The extraction of lines 296-334 (packs found on the listing page). *)
Definition extractIconSlugs (d : Document) : list string :=
  let iconData := nuxt_iconData (scripts d) in
  if Nat.eqb (length iconData) 0
  then slugs_of_links (createLinks d)
  else iconData.

(** [document.querySelectorAll('[data-slug], [data-icon-slug]')] *)
Definition iconCards (d : Document) : list Card :=
  List.filter (λ c, match data_slug c, data_icon_slug c with
                    | None, None => false
                    | _, _ => true
                    end) (elements d).

(** [card.getAttribute('data-slug') || card.getAttribute('data-icon-slug')] *)
Definition card_slug (c : Card) : option string :=
  if JS.truthy (data_slug c) then data_slug c else data_icon_slug c.

(** [.filter(Boolean)] on strings and nulls *)
Definition filter_Boolean (l : list (option string)) : list string :=
  omap (λ v, if JS.truthy v then v else None) l.

(** [document.querySelectorAll('img[src*="icon"], img[alt*="icon"]')] *)
Definition iconImages (d : Document) : list Img :=
  List.filter (λ i, match src i, alt i with
                    | Some s, _ => JS.includes s "icon"
                                   || match alt i with
                                      | Some a => JS.includes a "icon"
                                      | None => false
                                      end
                    | None, Some a => JS.includes a "icon"
                    | None, None => false
                    end) (images d).

(** [(srcMatch && srcMatch[1]) || (altMatch && altMatch[1]) || null],
    the attributes defaulting to the empty string. *)
Definition image_slug (i : Img) : option string :=
  match Regex.src_slug (default "" (src i)) with
  | Some cap => Some cap
  | None => Regex.alt_slug (default "" (alt i))
  end.

(** The extraction of lines 160-192 (hard-coded packs). *)
Definition extractIconSlugs_hardcoded (d : Document) : list string :=
  if negb (Nat.eqb (length (createLinks d)) 0)
  then slugs_of_links (createLinks d)
  else if negb (Nat.eqb (length (iconCards d)) 0)
  then filter_Boolean (List.map card_slug (iconCards d))
  else filter_Boolean (List.map image_slug (iconImages d)).

(** *** Dedup check, lines 344-347 *)

(** [possibleFilenames.some(filename =>
       filename.startsWith(iconSlug + '__') && filename.endsWith('.glb'))] *)
Definition fileExists (possibleFilenames : list string) (iconSlug : string)
  : bool :=
  existsb (λ filename, JS.startsWith filename (iconSlug +:+ "__")
                       && JS.endsWith filename ".glb")
          possibleFilenames.

(** *** The response listener, lines 355-391 *)

Definition responseHandler (env : Env) (c : Closure)
    (response : Response) : Prog (World Closure Memory) unit :=
  let url := r_url response in
  if JS.includes url PRESIGNED_ENDPOINT then
    try_catch
      (responseData <- response_json response ;;
       match responseData with
       | BodyObject presignedUrl _ =>
           if JS.truthy presignedUrl then
             let iconUuid := uuid_of_url url in
             (* slugToUuidMap.set(iconSlug, iconUuid) *)
             act (λ w, set_mem (<[iconSlug c := iconUuid]> (mem w)) w) ;;
             try_catch
               (glbResponse <- axios env (default "" presignedUrl) ;;
                fs_writeFile env (packDir c) (glb_filename (iconSlug c) iconUuid)
                  (Binary glbResponse))
               (ret tt)
           else ret tt
       | _ => ret tt
       end)%prog
      (ret tt)
  else ret tt.

#[global] Instance listener : Listener Closure Memory := {|
  listener_slug := iconSlug;
  invoke env c r := exec (responseHandler env c r)
|}.

Section Script.
Variable env : Env.
Variable dom : Dom Document.

(** The body of the loop over the icons of a pack, lines 339-411. *)
Definition processIcon (packDir iconSlug : string)
  : Prog (World Closure Memory) unit :=
  try_catch
    (possibleFilenames <- fs_readdirSync packDir ;;
     if fileExists possibleFilenames iconSlug
     then ret tt (* continue *)
     else
       handler <- page_on (mkClosure iconSlug packDir) ;;
       page_goto env (create_url iconSlug) ;;
       page_waitForTimeout env 5000%N ;;
       page_removeListener handler)%prog
    (ret tt).

(** The body of the loop over the packs, lines 283-416 and 141-280, with
    the extraction the branch uses. *)
Definition processPack (extract : Document → list string)
    (packUrl : string) : Prog (World Closure Memory) unit :=
  try_catch
    (let fullPackUrl := "https://pixcap.com" +:+ packUrl in
     let packSlug := JS.pop (JS.split "/"%char packUrl) in
     let packDir := packDir_of packSlug in
     page_goto env fullPackUrl ;;
     iconSlugs <- page_evaluate dom extract ;;
     for_of iconSlugs (processIcon packDir))%prog
    (ret tt).

Definition hardcodedPacks : list string :=
  [ "/pack/3d-icon-pack-furniture-models";
    "/pack/3d-icon-set-buildings-houses" ].

(** Lines 419-424: the one place where the mapping reaches the disk. *)
Definition saveMapping : Prog (World Closure Memory) unit :=
  (m <- gets mem ;;
   fs_writeFile env OUTPUT_DIR MAPPING_FILE (JsonObject m))%prog.

(** [main], lines 39-429, once the browser is open: the listing, the login
    by hand when the page shows a link to it, the packs, the mapping. The
    screenshots and the dumps written for debugging, and the cookies read
    and written, are left out. *)
Definition main : Prog (World Closure Memory) unit :=
  try_catch
    (page_goto env "https://pixcap.com/3d-icon-packs" ;;
     isLoggedIn <- page_evaluate dom isLoggedIn ;;
     (if negb isLoggedIn
      then
        page_goto env "https://pixcap.com/login" ;;
        page_waitForNavigation env ;;
        page_goto env "https://pixcap.com/3d-icon-packs"
      else ret tt) ;;
     packUrls <- page_evaluate dom packUrls ;;
     (if Nat.eqb (length packUrls) 0
      then for_of hardcodedPacks (processPack extractIconSlugs_hardcoded)
      else for_of packUrls (processPack extractIconSlugs)) ;;
     saveMapping)%prog
    (ret tt).

End Script.

(** A fresh page, an empty map and the given disk. *)
Definition start (d : Disk) : World Closure Memory :=
  mkWorld [] 0 ∅ d [].

End IndexJs.

(** ** The direct downloaders

    [createResponseHandler] and [downloadGlbFile] are shared, word for word
    up to the names of their variables and of the mapping file, by the
    downloader of known icon slugs and by the downloader of item pages. The
    loop is the one over [ICON_SLUGS]. *)

Module Direct.

Definition OUTPUT_DIR : string := "glb".

(** ['icon-mappings.json'] in one script, ['item-mappings.json'] in the
    other. *)
Definition MAPPING_FILE : string := "icon-mappings.json".

(** [createResponseHandler] closes over the slug only. *)
Record Closure := mkClosure { iconSlug : string }.

Abbreviation Memory := unit.

(** What the loop reads of the page after the redirect: [page.url()], and
    the first UUID-shaped token of the meta tags and script bodies. *)
Record Document := mkDocument {
  currentUrl : string;
  pageUuid : option string;
  (** no element links to [/login] *)
  isLoggedIn : bool
}.

(** [`https://pixcap.com/api/v1/assetmanager/presigned/loadProject/${uuid}?lang=en`] *)
Definition presigned_api (uuid : string) : string :=
  "https://pixcap.com" +:+ PRESIGNED_ENDPOINT +:+ uuid +:+ "?lang=en".

(** What [JSON.parse] makes of a text it accepts. *)
Inductive Parsed :=
| ParsedObject (entries : gmap string string)
| ParsedArray (text : string)
| ParsedScalar (text : string).

(** [let mappings = {}], then [JSON.parse(fs.readFileSync(mappingPath))]
    guarded by [existsSync] and a [try]: the value parsed, and the empty
    object when the file is missing or is not JSON. (A file of downloaded
    bytes is never the mapping file: its name ends in [.glb].) *)
Definition load_mappings (existing : option Content) : Parsed :=
  match existing with
  | Some (JsonObject m) => ParsedObject m
  | Some (JsonArray text) => ParsedArray text
  | Some (JsonScalar text) => ParsedScalar text
  | Some (Binary _) | Some (Garbled _) | None => ParsedObject ∅
  end.

(** [mappings[slug] = uuid], then [JSON.stringify(mappings, null, 2)]. The
    scripts are modules, hence strict code: the assignment throws on [null]
    and on every other value that is neither an object nor an array. *)
Definition assign_mapping {S : Type} (env : Env) (mappings : Parsed)
    (slug uuid : string) : Prog S Content :=
  match mappings with
  | ParsedObject m => ret (JsonObject (JS.assign m slug uuid))
  | ParsedArray text =>
      match array_assign env text slug uuid with
      | Some text' => ret (JsonArray text')
      | None => throw
      end
  | ParsedScalar _ => throw
  end.

(** [downloadGlbFile(presignedUrl, iconSlug, iconUuid)] *)
Definition downloadGlbFile (env : Env) (presignedUrl iconSlug iconUuid : string)
  : Prog (World Closure Memory) unit :=
  try_catch
    (glbResponse <- axios env presignedUrl ;;
     let filename := glb_filename iconSlug iconUuid in
     fs_writeFile env OUTPUT_DIR filename (Binary glbResponse) ;;
     existing <- fs_readFile OUTPUT_DIR MAPPING_FILE ;;
     let mappings := load_mappings existing in
     updated <- assign_mapping env mappings iconSlug iconUuid ;;
     fs_writeFile env OUTPUT_DIR MAPPING_FILE updated)%prog
    (ret tt).

(** The function [createResponseHandler(iconSlug)] returns. *)
Definition createResponseHandler (env : Env) (c : Closure)
    (response : Response) : Prog (World Closure Memory) unit :=
  let url := r_url response in
  if JS.includes url PRESIGNED_ENDPOINT then
    try_catch
      (responseData <- response_json response ;;
       match responseData with
       | BodyObject presignedUrl _ =>
           if JS.truthy presignedUrl then
             let iconUuid := uuid_of_url url in
             downloadGlbFile env (default "" presignedUrl) (iconSlug c) iconUuid
           else ret tt
       | _ => ret tt
       end)%prog
      (ret tt)
  else ret tt.

#[global] Instance listener : Listener Closure Memory := {|
  listener_slug := iconSlug;
  invoke env c r := exec (createResponseHandler env c r)
|}.

Section Script.
Variable env : Env.
Variable dom : Dom Document.

(** [await page.evaluate(async url => { ... fetch(url) ... }, url)]: the
    request is one of the page, so its response reaches the listeners. *)
Definition evaluate_fetch (url : string) : Prog (World Closure Memory) Body :=
  λ w, (Normal (page_fetch env (clock w) url),
        deliver_all env (fetch_load env (clock w) url)
          (emit (EvPageFetch url) w)).

(** The use made of the fetched object in both branches: a signed URL is
    downloaded, an [error] is logged, and reading [.error] of [null]
    throws. *)
Definition use_presignedResponse (presignedResponse : Body)
    (iconSlug uuid : string) : Prog (World Closure Memory) unit :=
  match presignedResponse with
  | BodyObject presignedUrl _ =>
      if JS.truthy presignedUrl
      then downloadGlbFile env (default "" presignedUrl) iconSlug uuid
      else ret tt
  | BodyNotJson => ret tt
  | BodyNull => throw
  end.

(** The body of the loop over [ICON_SLUGS]. *)
Definition processIcon (iconSlug : string) : Prog (World Closure Memory) unit :=
  try_catch
    (handler <- page_on (mkClosure iconSlug) ;;
     page_goto env (create_url iconSlug) ;;
     page_waitForTimeout env 10000%N ;;
     currentUrl <- page_evaluate dom currentUrl ;;
     match Regex.design_uuid currentUrl with
     | Some uuid =>
         presignedResponse <- evaluate_fetch (presigned_api uuid) ;;
         use_presignedResponse presignedResponse iconSlug uuid
     | None =>
         pageUuid <- page_evaluate dom pageUuid ;;
         match pageUuid with
         | Some uuid =>
             presignedResponse <- evaluate_fetch (presigned_api uuid) ;;
             use_presignedResponse presignedResponse iconSlug uuid
         | None => ret tt
         end
     end ;;
     page_removeListener handler)%prog
    (ret tt).

(** [main], once the browser is open: the home page, the login by hand
    when the page shows a link to it, the icons. The cookies read and
    written are left out. *)
Definition main (ICON_SLUGS : list string) : Prog (World Closure Memory) unit :=
  try_catch
    (page_goto env "https://pixcap.com" ;;
     isLoggedIn <- page_evaluate dom isLoggedIn ;;
     (if negb isLoggedIn
      then
        page_goto env "https://pixcap.com/login" ;;
        page_waitForNavigation env
      else ret tt) ;;
     for_of ICON_SLUGS processIcon)%prog
    (ret tt).

End Script.

Definition start (d : Disk) : World Closure Memory :=
  mkWorld [] 0 tt d [].

End Direct.

(** ** [find-items.js]: catalog crawl, item discovery and download *)

Module FindItems.

Definition DOWNLOAD_DIR : string := "downloads".

(** [handleResponse] closes over the slug (for its log lines) and over the
    local variable [presignedUrl] of the call that created it, kept in the
    memory cell [cell]. *)
Record Closure := mkClosure {
  itemSlug : string;
  cell : nat
}.

(** The [presignedUrl] locals of the calls made so far; no entry is
    [null]. *)
Abbreviation Memory := (gmap nat string).

(** [itemData] *)
Record Item := mkItem {
  itemUrl : string;
  packName : string;
  packUrl : string
}.

(** What [page.evaluate] reads of a listing page or of a pack page. Every
    [href] is the property [el.href]: the resolved, absolute URL, and the
    empty string or [None] where the element has none. *)
Record Document := mkDocument {
  (** [a[href^="/pack/"]] *)
  packLinks : list string;
  (** lines 113-119: an enabled next button inside a pagination element *)
  hasNextPage : bool;
  (** lines 128-135: a next button to click inside [.pagination] *)
  nextPageClicked : bool;
  (** [a[href*="/item/"]] *)
  itemAnchors : list string;
  (** the [a] descendants of each [[data-v-24e913ac]] *)
  components : list (list string);
  (** the [a] descendants of each card, thumbnail or item-classed element *)
  cards : list (list string);
  (** [.library--info-tag, [class*="library"]], themselves *)
  libraryTags : list (option string)
}.

(** *** The response listener, lines 187-199 *)

Definition GLB_CONTENT_TYPE : string := "model/gltf-binary".

Definition handleResponse (c : Closure) (response : Response)
  : Prog (World Closure Memory) unit :=
  try_catch
    (if JS.includes (r_url response) PRESIGNED_ENDPOINT then
       data <- response_json response ;;
       match data with
       | BodyObject presignedUrl contentType =>
           if JS.truthy presignedUrl
              && bool_decide (contentType = Some GLB_CONTENT_TYPE)
           then (* presignedUrl = data.presignedUrl *)
             act (λ w, set_mem (<[cell c := default "" presignedUrl]> (mem w)) w)
           else ret tt
       | _ => ret tt
       end
     else ret tt)%prog
    (ret tt).

#[global] Instance listener : Listener Closure Memory := {|
  listener_slug := itemSlug;
  invoke env c r := exec (handleResponse c r)
|}.

Section Script.
Variable env : Env.
Variable dom : Dom Document.

(** [new URL(href).pathname], [None] when the constructor throws. *)
Variable pathname : string → option string.

(** [try { return new URL(href).pathname } catch (e) { return href }] *)
Definition path_form (href : string) : string :=
  default href (pathname href).

(** *** [downloadGlbFile(item, page)], lines 175-239 *)

Definition downloadGlbFile (item : Item) : Prog (World Closure Memory) bool :=
  try_catch
    (let itemSlug := JS.pop (JS.split "/" (itemUrl item)) in
     let packFolder :=
       DOWNLOAD_DIR +:+ "/" +:+
       (if JS.truthy (Some (packName item)) then packName item
        else "unknown-pack") in
     (* let presignedUrl = null *)
     cell <- gets next_id ;;
     act (λ w, set_mem (delete cell (mem w)) w) ;;
     handler <- page_on (mkClosure itemSlug cell) ;;
     page_goto env (create_url itemSlug) ;;
     page_waitForNavigation env ;;
     page_waitForTimeout env 5000%N ;;
     page_removeListener handler ;;
     presignedUrl <- gets (λ w, mem w !! cell) ;;
     match presignedUrl with
     | Some url =>
         response <- axios env url ;;
         fs_writeFile env packFolder (itemSlug +:+ ".glb") (Binary response) ;;
         ret true
     | None => ret false
     end)%prog
    (ret false).

(** *** [getPackUrls], lines 89-101 *)

Definition getPackUrls (d : Document) : list string :=
  JS.filter_first (List.map path_form (packLinks d)).

(** *** [getItemUrls], lines 276-319 *)

(** [scanForItemLinks(elements)], adding to the set [urls] *)
Definition scanForItemLinks (urls : list string) (elements : list string)
  : list string :=
  fold_left
    (λ urls href,
       if JS.truthy (Some href) && JS.includes href "/item/"
       then JS.push_unique urls href
       else urls)
    elements urls.

Definition getItemUrls (d : Document) : list string :=
  let urls := [] in
  (* Strategy 1 *)
  let urls := scanForItemLinks urls (itemAnchors d) in
  (* Strategy 2 *)
  let urls := fold_left scanForItemLinks (components d) urls in
  (* Strategy 3 *)
  let urls := fold_left scanForItemLinks (cards d) urls in
  (* Strategy 4 *)
  let urls := scanForItemLinks urls (List.map (default "") (libraryTags d)) in
  List.map path_form urls.

(** *** Pagination, lines 107-165 and 325-381

    The [while] loop has no bound of its own; [fuel] bounds the number of
    iterations, and [None] is returned when it runs out. *)

(** [nextButton.click()] inside [page.evaluate] *)
Definition click_next : Prog (World Closure Memory) bool :=
  (clicked <- page_evaluate dom nextPageClicked ;;
   if clicked then act (emit EvClickNext) ;; ret true else ret false)%prog.

Fixpoint paginate (fuel : nat) (getUrls : Document → list string)
    (all : list string) : Prog (World Closure Memory) (option (list string)) :=
  match fuel with
  | 0 => ret None
  | S fuel' =>
      (hasNextPage <- page_evaluate dom hasNextPage ;;
       if negb hasNextPage then ret (Some all)
       else
         nextPageClicked <- click_next ;;
         if negb nextPageClicked then ret (Some all)
         else
           (* .catch(e => { hasMorePages = false }) *)
           hasMorePages <- try_catch (page_waitForNavigation env ;; ret true)
                                     (ret false) ;;
           if negb hasMorePages then ret (Some all)
           else
             pageUrls <- page_evaluate dom getUrls ;;
             paginate fuel' getUrls (fold_left JS.push_unique pageUrls all))%prog
  end.

(** Step 1 of [main], lines 80-165. *)
Definition crawlPacks (fuel : nat)
  : Prog (World Closure Memory) (option (list string)) :=
  (page_goto env "https://pixcap.com/3d-icon-packs" ;;
   allPackUrls <- page_evaluate dom getPackUrls ;;
   paginate fuel getPackUrls allPackUrls)%prog.

End Script.

Definition start (d : Disk) : World Closure Memory :=
  mkWorld [] 0 ∅ d [].

End FindItems.

(** ** Properties stated on traces and documents *)

Module Spec.

(** In the events [t] of one resolution, every navigation to the create URL
    of [slug] comes after the registration of a listener for [slug] that
    has not been removed in between. *)
Definition RegisteredBeforeNavigation (slug : string) (t : list Event) : Prop :=
  ∀ i, t !! i = Some (EvGoto (create_url slug)) →
    ∃ j id, j < i ∧ t !! j = Some (EvOn id slug)
            ∧ ∀ k, j < k < i → t !! k ≠ Some (EvOff id).

(** Events that neither navigate nor touch the listeners. *)
Definition quiet (e : Event) : Prop :=
  match e with
  | EvOn _ _ | EvOff _ | EvGoto _ => False
  | _ => True
  end.

(** One resolution took the trace from [before] to [after]. When it was
    [skipped] it did nothing; otherwise it registered a listener for [slug]
    first and navigated to the create URL of [slug] next, and did not
    navigate again. *)
Definition ResolutionOrdered (skipped : bool) (slug : string)
    (before after : list Event) : Prop :=
  ∃ t, after = before ++ t
       ∧ RegisteredBeforeNavigation slug t
       ∧ if skipped then t = []
         else ∃ id rest, t = EvOn id slug :: EvGoto (create_url slug) :: rest
                         ∧ Forall (λ e, ∀ url, e ≠ EvGoto url) rest.

(** The mapping file is missing, is not JSON, or holds a JSON object: the
    direct downloaders then start from an object, the empty one in the first
    two cases. *)
Definition reads_as_object (existing : option Content) : Prop :=
  match Direct.load_mappings existing with
  | Direct.ParsedObject _ => True
  | _ => False
  end.

(** The identifier a mapping file on disk records for a slug. *)
Definition saved_entry (d : Disk) (dir file slug : string) : option string :=
  match d !! (dir, file) with
  | Some (JsonObject m) => m !! slug
  | _ => None
  end.

(** Removing duplicates, first occurrences kept in order: what a [Set]
    fed the elements one by one holds. *)
Definition dedup (l : list string) : list string :=
  fold_left JS.push_unique l [].

(** "Normalized to path form": the path of a reference that is a URL, the
    reference itself otherwise. *)
Definition path_form (pathname : string → option string) (href : string)
  : string :=
  match pathname href with
  | Some path => path
  | None => href
  end.

(** "The union of each individual extraction heuristic's output,
    deduplicated by normalized path": [found] being the references the
    heuristics find, one after the other. *)
Definition item_references (pathname : string → option string)
    (found : list string) : list string :=
  dedup (List.map (path_form pathname) found).

End Spec.

(** What every listener of the three scripts guarantees: it leaves the
    listeners alone and neither navigates nor registers. *)
Class QuietListener (H M : Type) `{!Listener H M} := {
  invoke_listeners : ∀ env h r (w : World H M),
    listeners (invoke env h r w) = listeners w;
  invoke_next_id : ∀ env h r (w : World H M),
    next_id (invoke env h r w) = next_id w;
  invoke_trace : ∀ env h r (w : World H M),
    ∃ t, trace (invoke env h r w) = trace w ++ t ∧ Forall Spec.quiet t
}.

(** ** Concrete runs *)

Module Scenario.

(** The response of the resolution API for identifier [abc123]. *)
Definition resp_abc123 : Response :=
  mkResponse
    "https://pixcap.com/api/v1/assetmanager/presigned/loadProject/abc123?lang=en"
    (BodyObject (Some "https://cdn.example/x") (Some "model/gltf-binary")).

(** The same signed URL, served with another content type. *)
Definition resp_octet : Response :=
  mkResponse
    "https://pixcap.com/api/v1/assetmanager/presigned/loadProject/abc123?lang=en"
    (BodyObject (Some "https://cdn.example/x") (Some "application/octet-stream")).

Definition no_fetch : nat → string → Body := λ _ _, BodyNotJson.

(** Navigating to the create URL of [foo] triggers [resp]; every
    navigation settles; the signed URL serves [served]. *)
Definition env_with (resp : Response) (served : option string) : Env := {|
  goto_load _ url :=
    (if String.eqb url (create_url "foo") then [resp] else [], true);
  nav_wait _ := ([], true);
  idle_wait _ := [];
  axios_get _ url :=
    if String.eqb url "https://cdn.example/x" then served else None;
  page_fetch := no_fetch;
  fetch_load _ _ := [];
  fs_nested _ _ _ := None;
  array_assign _ _ _ := None
|}.

Definition env_resolves : Env := env_with resp_abc123 (Some "GLB").
Definition env_fetch_fails : Env := env_with resp_abc123 None.
Definition env_octet : Env := env_with resp_octet (Some "GLB").

(** No navigation settles before its timeout. *)
Definition env_timeout : Env := {|
  goto_load _ _ := ([], false);
  nav_wait _ := ([], false);
  idle_wait _ := [];
  axios_get _ _ := None;
  page_fetch := no_fetch;
  fetch_load _ _ := [];
  fs_nested _ _ _ := None;
  array_assign _ _ _ := None
|}.

(** The navigation for [a] times out; the one for [b] settles and triggers
    the response for identifier [abc123]. *)
Definition env_a_times_out : Env := {|
  goto_load _ url :=
    if String.eqb url (create_url "b") then ([resp_abc123], true)
    else ([], false);
  nav_wait _ := ([], true);
  idle_wait _ := [];
  axios_get _ url :=
    if String.eqb url "https://cdn.example/x" then Some "GLB" else None;
  page_fetch := no_fetch;
  fetch_load _ _ := [];
  fs_nested _ _ _ := None;
  array_assign _ _ _ := None
|}.

(** A pack directory of [index.js] that already holds the file of [foo]. *)
Definition disk_index_foo : Disk :=
  {[ ("glb/pack", "foo__abc123.glb") := Binary "GLB" ]}.

(** The same file in a pack folder of [find-items.js]. *)
Definition disk_find_foo : Disk :=
  {[ ("downloads/Pack", "foo__abc123.glb") := Binary "GLB" ]}.

Definition item_foo : FindItems.Item :=
  FindItems.mkItem "/item/foo" "Pack" "/pack/p".

(** The listing shows one pack, whose page links to the create URL of
    [foo]. *)
Definition dom_one_pack : Dom IndexJs.Document := λ _,
  IndexJs.mkDocument ["/pack/p"] [] ["/design/create?slug=foo"] [] [] true.

(** A stand-in for [new URL(href).pathname] on the URLs of the site: the
    text between the origin and the first [?] or [#]; anything that does
    not start with the origin is rejected. *)
Definition pathname (href : string) : option string :=
  if String.prefix "https://pixcap.com/" href
  then Some (Regex.take_while
               (λ c, Regex.not_char "?" c && Regex.not_char "#" c)
               (String.substring 18 (String.length href) href))
  else None.

(** A pack page with two anchors to the same item. *)
Definition dom_same_item : FindItems.Document :=
  FindItems.mkDocument [] false false
    [ "https://pixcap.com/item/a?ref=grid";
      "https://pixcap.com/item/a?ref=list" ] [] [] [].

(** A pack page with no state blob and no create link, and one image whose
    [src] carries a slug. *)
Definition doc_image_only : IndexJs.Document :=
  IndexJs.mkDocument [] [] [] []
    [ IndexJs.mkImg (Some "https://cdn.pixcap.com/thumbs/chair-3d-icon.png")
        None ]
    true.

(** A pack page whose state blob lists [x] and that links to the create
    URL of [y]. *)
Definition doc_blob_and_link : IndexJs.Document :=
  IndexJs.mkDocument []
    [ IndexJs.mkScript "window.__NUXT__={state:{pack:{pack:{items:[{slug:'x'}]}}}}"
        (IndexJs.NuxtItems ["x"]) ]
    [ "/design/create?slug=y" ] [] [] true.

Definition listing_page (links : list string) (next : bool)
  : FindItems.Document :=
  FindItems.mkDocument
    (List.map (λ p, "https://pixcap.com/pack/" +:+ p) links)
    next next [] [] [] [].

(** A catalog of three pages with two, three and one packs; the second
    page repeats a pack of the first, and the third has no next control.
    The loop is entered at clock 1 and every turn takes two ticks. *)
Definition dom_catalog : Dom FindItems.Document := λ clock,
  if Nat.ltb clock 3 then listing_page ["a"; "b"] true
  else if Nat.ltb clock 5 then listing_page ["c"; "a"; "d"; "e"] true
  else listing_page ["f"] false.

End Scenario.

(** ** The extraction heuristics, one by one *)

Module Extraction.

(** The test [scanForItemLinks] applies to an element. *)
Definition isItemLink (href : string) : bool :=
  JS.truthy (Some href) && JS.includes href "/item/".

(** The four heuristics of [getItemUrls], each on its own: the item links
    among the matched anchors, among the anchors inside the scoped
    components, among the anchors inside the cards, and among the library
    tags. *)
Definition direct_anchors (d : FindItems.Document) : list string :=
  List.filter isItemLink (FindItems.itemAnchors d).

Definition component_anchors (d : FindItems.Document) : list string :=
  List.filter isItemLink (concat (FindItems.components d)).

Definition card_anchors (d : FindItems.Document) : list string :=
  List.filter isItemLink (concat (FindItems.cards d)).

Definition library_tags (d : FindItems.Document) : list string :=
  List.filter isItemLink (List.map (default "") (FindItems.libraryTags d)).

Definition all_heuristics (d : FindItems.Document) : list string :=
  direct_anchors d ++ component_anchors d ++ card_anchors d ++ library_tags d.

(** The three layers of the item-level fallback, as the specification
    words them. *)
Definition blob_slugs (d : IndexJs.Document) : list string :=
  IndexJs.nuxt_iconData (IndexJs.scripts d).

Definition anchor_slugs (d : IndexJs.Document) : list string :=
  IndexJs.slugs_of_links (IndexJs.createLinks d).

Definition image_slugs (d : IndexJs.Document) : list string :=
  IndexJs.filter_Boolean (List.map IndexJs.image_slug (IndexJs.iconImages d)).

Definition card_slugs (d : IndexJs.Document) : list string :=
  IndexJs.filter_Boolean (List.map IndexJs.card_slug (IndexJs.iconCards d)).

(** "First the state blob; if that yields nothing, the anchors with a
    [slug=] parameter; if that too yields nothing, the images." *)
Definition layered_fallback (d : IndexJs.Document) : list string :=
  match blob_slugs d with
  | _ :: _ => blob_slugs d
  | [] =>
      match anchor_slugs d with
      | _ :: _ => anchor_slugs d
      | [] => image_slugs d
      end
  end.

Definition with_images (imgs : list IndexJs.Img) (d : IndexJs.Document)
  : IndexJs.Document :=
  IndexJs.mkDocument (IndexJs.packUrls d) (IndexJs.scripts d)
    (IndexJs.anchors d) (IndexJs.elements d) imgs (IndexJs.isLoggedIn d).

Definition with_scripts (ss : list IndexJs.Script) (d : IndexJs.Document)
  : IndexJs.Document :=
  IndexJs.mkDocument (IndexJs.packUrls d) ss
    (IndexJs.anchors d) (IndexJs.elements d) (IndexJs.images d)
    (IndexJs.isLoggedIn d).

End Extraction.

(** ** The pages of a paginated listing *)

Module Crawl.

Section Pages.
Variable env : Env.
Variable dom : Dom FindItems.Document.
(** the clock when the pagination loop is entered *)
Variable c0 : nat.

(** The document in front of the loop at its [n]-th turn: every turn
    that goes on clicks once and waits once. *)
Definition page (n : nat) : FindItems.Document := dom (c0 + 2 * n).

(** The [n]-th turn goes on to a further page: an enabled next control
    is found, clicking it succeeds, and the wait for the navigation
    neither fails nor times out. *)
Definition continues (n : nat) : bool :=
  FindItems.hasNextPage (page n)
  && FindItems.nextPageClicked (page n)
  && (nav_wait env (c0 + 2 * n + 1)).2.

(** The pages seen up to and including the [n]-th. *)
Definition pages_upto (n : nat) : list FindItems.Document :=
  List.map page (seq 0 (S n)).

(** What the pages after the first add to the collection, [getUrls]
    being the extraction run on each. *)
Definition later_urls (getUrls : FindItems.Document → list string)
    (n : nat) : list string :=
  concat (List.map (λ k, getUrls (page k)) (seq 1 n)).

End Pages.

(** The pack links of a page in path form, duplicates included. *)
Definition pack_paths (pathname : string → option string)
    (d : FindItems.Document) : list string :=
  List.map (FindItems.path_form pathname) (FindItems.packLinks d).

Definition LISTING : string := "https://pixcap.com/3d-icon-packs".

End Crawl.

(** ** The item-page downloader

    The script that starts from item pages: it opens each item page, reads
    the link to the editor off it, and resolves through that link. Its
    [createResponseHandler] and [downloadGlbFile] are those of the direct
    downloader, with ['item-mappings.json'] as the mapping file. *)

Module ItemPage.

Definition OUTPUT_DIR : string := "glb".

Definition MAPPING_FILE : string := "item-mappings.json".

(** [createResponseHandler(itemSlug)] closes over the slug only. *)
Record Closure := mkClosure { itemSlug : string }.

Abbreviation Memory := unit.

(** What the loops read of the page they are on. *)
Record Document := mkDocument {
  (** lines 112-141: the link to the editor found on an item page *)
  designUrl : option string;
  (** lines 336-347: the same, as the second loop looks for it *)
  editorLink : option string;
  (** [page.url()] *)
  currentUrl : string;
  (** lines 212-232: the first UUID-shaped token of the meta tags and
      script bodies *)
  pageUuid : option string;
  (** the [href] attribute of every [a[href^="/item/"]] *)
  itemLinks : list string;
  (** for every [[data-v-24e913ac]], the [href] attribute of its
      [a[href*="/item/"]] descendants *)
  cardItemLinks : list (list string);
  (** lines 56-59: no element links to [/login] *)
  isLoggedIn : bool
}.

(** [downloadGlbFile(presignedUrl, itemSlug, itemUuid)], lines 412-450 *)
Definition downloadGlbFile (env : Env) (presignedUrl itemSlug itemUuid : string)
  : Prog (World Closure Memory) unit :=
  try_catch
    (glbResponse <- axios env presignedUrl ;;
     let filename := glb_filename itemSlug itemUuid in
     fs_writeFile env OUTPUT_DIR filename (Binary glbResponse) ;;
     existing <- fs_readFile OUTPUT_DIR MAPPING_FILE ;;
     let mappings := Direct.load_mappings existing in
     updated <- Direct.assign_mapping env mappings itemSlug itemUuid ;;
     fs_writeFile env OUTPUT_DIR MAPPING_FILE updated)%prog
    (ret tt).

(** The function [createResponseHandler(itemSlug)] returns, lines 386-409 *)
Definition createResponseHandler (env : Env) (c : Closure)
    (response : Response) : Prog (World Closure Memory) unit :=
  let url := r_url response in
  if JS.includes url PRESIGNED_ENDPOINT then
    try_catch
      (responseData <- response_json response ;;
       match responseData with
       | BodyObject presignedUrl _ =>
           if JS.truthy presignedUrl then
             let itemUuid := uuid_of_url url in
             downloadGlbFile env (default "" presignedUrl) (itemSlug c) itemUuid
           else ret tt
       | _ => ret tt
       end)%prog
      (ret tt)
  else ret tt.

#[global] Instance listener : Listener Closure Memory := {|
  listener_slug := itemSlug;
  invoke env c r := exec (createResponseHandler env c r)
|}.

Section Script.
Variable env : Env.
Variable dom : Dom Document.

(** [await page.evaluate(async url => { ... fetch(url) ... }, url)]: the
    request is one of the page, so its response reaches the listeners. *)
Definition evaluate_fetch (url : string) : Prog (World Closure Memory) Body :=
  λ w, (Normal (page_fetch env (clock w) url),
        deliver_all env (fetch_load env (clock w) url)
          (emit (EvPageFetch url) w)).

(** What both branches do with the fetched object. *)
Definition use_presignedResponse (presignedResponse : Body)
    (itemSlug uuid : string) : Prog (World Closure Memory) unit :=
  match presignedResponse with
  | BodyObject presignedUrl _ =>
      if JS.truthy presignedUrl
      then downloadGlbFile env (default "" presignedUrl) itemSlug uuid
      else ret tt
  | BodyNotJson => ret tt
  | BodyNull => throw
  end.

(** The body of the loop over [ITEM_URLS], lines 90-269. *)
Definition processItem (itemUrl : string) : Prog (World Closure Memory) unit :=
  try_catch
    (let itemSlug := JS.pop (JS.split "/" itemUrl) in
     let fullItemUrl := "https://pixcap.com" +:+ itemUrl in
     page_goto env fullItemUrl ;;
     designUrl <- page_evaluate dom designUrl ;;
     if negb (JS.truthy designUrl) then ret tt (* continue *)
     else
       handler <- page_on (mkClosure itemSlug) ;;
       page_goto env (default "" designUrl) ;;
       page_waitForTimeout env 10000%N ;;
       currentUrl <- page_evaluate dom currentUrl ;;
       match Regex.design_uuid currentUrl with
       | Some uuid =>
           presignedResponse <- evaluate_fetch (Direct.presigned_api uuid) ;;
           use_presignedResponse presignedResponse itemSlug uuid
       | None =>
           pageUuid <- page_evaluate dom pageUuid ;;
           match pageUuid with
           | Some uuid =>
               presignedResponse <- evaluate_fetch (Direct.presigned_api uuid) ;;
               use_presignedResponse presignedResponse itemSlug uuid
           | None => ret tt
           end
       end ;;
       page_removeListener handler)%prog
    (ret tt).

(** The extraction of lines 283-306: the direct item links, and only when
    there is none the item links inside the scoped components. *)
Definition additionalItems (d : Document) : list string :=
  if Nat.eqb (length (itemLinks d)) 0
  then concat (cardItemLinks d)
  else itemLinks d.

(** The body of the loop over the additional items, lines 318-374. *)
Definition processAdditionalItem (itemUrl : string)
  : Prog (World Closure Memory) unit :=
  try_catch
    (let itemSlug := JS.pop (JS.split "/" itemUrl) in
     let fullItemUrl := "https://pixcap.com" +:+ itemUrl in
     page_goto env fullItemUrl ;;
     editorLink <- page_evaluate dom editorLink ;;
     if JS.truthy editorLink then
       handler <- page_on (mkClosure itemSlug) ;;
       page_goto env (default "" editorLink) ;;
       page_waitForTimeout env 10000%N ;;
       page_removeListener handler
     else ret tt)%prog
    (ret tt).

(** [main], lines 38-380, once the browser is open: the home page, the
    login by hand when the page shows a link to it, the listed items, the
    items found on the listing. The screenshots and the dumps written for
    debugging, and the cookies read and written, are left out. *)
Definition main (ITEM_URLS : list string) : Prog (World Closure Memory) unit :=
  try_catch
    (page_goto env "https://pixcap.com" ;;
     isLoggedIn <- page_evaluate dom isLoggedIn ;;
     (if negb isLoggedIn
      then
        page_goto env "https://pixcap.com/login" ;;
        page_waitForNavigation env
      else ret tt) ;;
     for_of ITEM_URLS processItem ;;
     page_goto env "https://pixcap.com/3d-icon-packs" ;;
     additional <- page_evaluate dom additionalItems ;;
     for_of additional processAdditionalItem)%prog
    (ret tt).

End Script.

Definition start (d : Disk) : World Closure Memory :=
  mkWorld [] 0 tt d [].

End ItemPage.

(** ** Further concrete runs *)

Module Runs.


(** The page has been redirected to the design [0f8e-42]. *)
Definition dom_redirected : Dom Direct.Document := λ _,
  Direct.mkDocument "https://pixcap.com/design/0f8e-42" None true.

(** Every navigation settles and brings no response; the in-page fetch
    answers [fetched], which the listeners see as the response to it; the
    signed URL serves [GLB]. *)
Definition env_silent (fetched : Body) : Env := {|
  goto_load _ _ := ([], true);
  nav_wait _ := ([], true);
  idle_wait _ := [];
  axios_get _ url :=
    if String.eqb url "https://cdn.example/x" then Some "GLB" else None;
  page_fetch _ _ := fetched;
  fetch_load _ url := [mkResponse url fetched];
  fs_nested _ _ _ := None;
  array_assign _ _ _ := None
|}.



Definition item_plain : Dom ItemPage.Document := λ _,
  ItemPage.mkDocument None None "https://pixcap.com/item/foo" None [] [] true.

End Runs.

(** ** Slugs and mapping files off the beaten path *)

Module Edge.

(** As [Scenario.env_resolves], on a disk where the directory [a] exists
    inside the pack directory, so that [path.join(dir, "a/b__abc123.glb")]
    is a file of [dir/a]; an array is written back as it was, the key
    assigned to it being neither an index nor [length]. *)
Definition env_folders : Env := {|
  goto_load := goto_load Scenario.env_resolves;
  nav_wait := nav_wait Scenario.env_resolves;
  idle_wait := idle_wait Scenario.env_resolves;
  axios_get := axios_get Scenario.env_resolves;
  page_fetch := page_fetch Scenario.env_resolves;
  fetch_load := fetch_load Scenario.env_resolves;
  fs_nested _ dir name :=
    if String.eqb name "a/b__abc123.glb" then Some (dir +:+ "/a") else None;
  array_assign text _ _ := Some text
|}.

(** The handler of [index.js] for an icon whose slug holds a [/]. *)
Definition nested_icon : IndexJs.Closure := IndexJs.mkClosure "a/b" "glb/pack".

(** An output directory whose mapping file holds the given content. *)
Definition disk_mapping (c : Content) : Disk :=
  {[ (Direct.OUTPUT_DIR, Direct.MAPPING_FILE) := c ]}.

End Edge.

(** ** What a run keeps *)

Module Keeps.

(** Every file of [w] is still a file of [w']. *)
Definition files {H M : Type} (w w' : World H M) : Prop :=
  ∀ k, is_Some (disk w !! k) → is_Some (disk w' !! k).

(** Every slug with an entry in memory still has one. *)
Definition entries {H : Type} (w w' : World H (gmap string string)) : Prop :=
  ∀ k, is_Some (mem w !! k) → is_Some (mem w' !! k).

(** The listeners registered before are the ones registered after, and
    identifiers are never handed out twice. The identifiers in use are
    below the next one to be handed out. *)
Definition fresh_ids {H M : Type} (w : World H M) : Prop :=
  Forall (λ l, l.1 < next_id w) (listeners w).

Definition page_listeners {H M : Type} (w w' : World H M) : Prop :=
  fresh_ids w → listeners w' = listeners w ∧ next_id w ≤ next_id w'.

(** No file is lost, and either the disk is as before or the folder [dir]
    holds a file that the dedup check of [index.js] takes for [slug]. *)
Definition icon_file {H M : Type} (dir slug : string) (w w' : World H M)
  : Prop :=
  files w w'
  ∧ (disk w' = disk w
     ∨ IndexJs.fileExists (readdir (disk w') dir) slug = true).

End Keeps.

(** * Theorems *)

(** ** Strings *)

Lemma startsWith_app (s t : string) : JS.startsWith (s +:+ t) s = true.
Proof.
  unfold JS.startsWith. induction s as [|c s IH]; simpl.
  - destruct t; reflexivity.
  - destruct (ascii_dec c c); [exact IH | congruence].
Qed.

Lemma string_app_assoc (s t u : string) :
  s +:+ (t +:+ u) = (s +:+ t) +:+ u.
Proof.
  induction s as [|c s IH]; [reflexivity|].
  change (String c (s +:+ (t +:+ u)) = String c ((s +:+ t) +:+ u)).
  by rewrite IH.
Qed.

Lemma string_app_nil_r (s : string) : s +:+ "" = s.
Proof.
  induction s as [|c s IH]; [reflexivity|].
  change (String c (s +:+ "") = String c s). by rewrite IH.
Qed.

Lemma string_rev_app_app (s acc : string) :
  String.rev_app s acc = String.rev_app s "" +:+ acc.
Proof.
  revert acc. induction s as [|c s IH]; intros acc; simpl; [reflexivity|].
  rewrite IH, (IH (String c "")).
  rewrite <- string_app_assoc. reflexivity.
Qed.

Lemma string_rev_app (s t : string) :
  String.rev (s +:+ t) = String.rev t +:+ String.rev s.
Proof.
  unfold String.rev. revert t. induction s as [|c s IH]; intros t; simpl.
  - by rewrite string_app_nil_r.
  - rewrite (string_rev_app_app (s +:+ t)), IH.
    rewrite (string_rev_app_app s (String c "")).
    rewrite <- string_app_assoc. reflexivity.
Qed.

Lemma endsWith_app (s t : string) : JS.endsWith (s +:+ t) t = true.
Proof.
  unfold JS.endsWith. rewrite string_rev_app. apply startsWith_app.
Qed.

Lemma glb_filename_startsWith (slug uuid : string) :
  JS.startsWith (glb_filename slug uuid) (slug +:+ "__") = true.
Proof.
  unfold glb_filename.
  rewrite (string_app_assoc slug "__" (uuid +:+ ".glb")).
  apply startsWith_app.
Qed.

Lemma glb_filename_endsWith (slug uuid : string) :
  JS.endsWith (glb_filename slug uuid) ".glb" = true.
Proof.
  unfold glb_filename.
  rewrite (string_app_assoc slug "__" (uuid +:+ ".glb")).
  rewrite (string_app_assoc (slug +:+ "__") uuid ".glb").
  apply endsWith_app.
Qed.

Lemma string_rev_cons (c : ascii) (s : string) :
  String.rev (String c s) = String.rev s +:+ String c "".
Proof. unfold String.rev. simpl. apply string_rev_app_app. Qed.

Lemma take_while_all (cls : ascii → bool) (s : string) :
  Text.all_chars cls s = true → Regex.take_while cls s = s.
Proof.
  induction s as [|c s IH]; simpl; [done|].
  intros [Hc Hs]%andb_prop. rewrite Hc. by rewrite IH.
Qed.

Lemma take_while_stops (cls : ascii → bool) (s rest : string) :
  Text.all_chars cls s = true →
  Regex.take_while cls rest = "" →
  Regex.take_while cls (s +:+ rest) = s.
Proof.
  intros Hs Hrest. induction s as [|c s IH].
  - exact Hrest.
  - simpl in Hs. apply andb_prop in Hs as [Hc Hs].
    change (Regex.take_while cls (String c (s +:+ rest)) = String c s).
    simpl. rewrite Hc. by rewrite IH.
Qed.

Lemma no_char_all (c : ascii) (s : string) :
  Text.has_char c s = false → Text.all_chars (Regex.not_char c) s = true.
Proof.
  induction s as [|x s IH]; simpl; [done|].
  intros [Hx Hs]%orb_false_elim. unfold Regex.not_char at 1.
  rewrite Hx. simpl. by apply IH.
Qed.

Lemma split_go_no_sep (sep : ascii) (cur t : string) :
  Text.has_char sep t = false →
  JS.split_go sep cur t = [String.rev cur +:+ t].
Proof.
  revert cur. induction t as [|c t IH]; intros cur; simpl.
  - intros _. by rewrite string_app_nil_r.
  - intros [Hc Ht]%orb_false_elim. rewrite Hc, IH by done.
    rewrite string_rev_cons, <- string_app_assoc. reflexivity.
Qed.

Lemma split_go_nonempty (sep : ascii) (cur s : string) :
  JS.split_go sep cur s ≠ [].
Proof.
  revert cur. induction s as [|c s IH]; intros cur; simpl; [done|].
  destruct (Ascii.eqb c sep); [done | apply IH].
Qed.

Lemma split_go_last (sep : ascii) (s t cur : string) :
  Text.has_char sep t = false →
  List.last (JS.split_go sep cur (s +:+ String sep t)) "" = t.
Proof.
  intros Ht. revert cur. induction s as [|c s IH]; intros cur.
  - change (List.last (JS.split_go sep cur (String sep t)) "" = t).
    simpl. rewrite Ascii.eqb_refl, split_go_no_sep by done. reflexivity.
  - change (List.last (JS.split_go sep cur (String c (s +:+ String sep t))) ""
            = t).
    simpl. destruct (Ascii.eqb c sep); [|apply IH].
    specialize (IH ""). pose proof (split_go_nonempty sep "" (s +:+ String sep t)).
    destruct (JS.split_go sep "" (s +:+ String sep t)); done.
Qed.

Lemma split_go_first (sep : ascii) (cur t : string) :
  List.hd "" (JS.split_go sep cur t)
  = String.rev cur +:+ Regex.take_while (Regex.not_char sep) t.
Proof.
  revert cur. induction t as [|c t IH]; intros cur; simpl.
  - by rewrite string_app_nil_r.
  - unfold Regex.not_char at 1. destruct (Ascii.eqb c sep); simpl.
    + by rewrite string_app_nil_r.
    + rewrite IH, string_rev_cons, <- string_app_assoc. reflexivity.
Qed.

Lemma has_char_app (c : ascii) (s t : string) :
  Text.has_char c (s +:+ t) = Text.has_char c s || Text.has_char c t.
Proof.
  induction s as [|x s IH]; [done|].
  change (Text.has_char c (String x (s +:+ t))
          = Text.has_char c (String x s) || Text.has_char c t).
  simpl. by rewrite IH, orb_assoc.
Qed.

Lemma take_while_not_char (c : ascii) (s : string) :
  Text.has_char c (Regex.take_while (Regex.not_char c) s) = false.
Proof.
  induction s as [|x s IH]; simpl; [done|].
  unfold Regex.not_char at 1. destruct (Ascii.eqb x c) eqn:Hx; simpl; [done|].
  by rewrite Hx.
Qed.


Lemma string_length_app (s t : string) :
  String.length (s +:+ t) = String.length s + String.length t.
Proof.
  induction s as [|c s IH]; [done|].
  change (S (String.length (s +:+ t)) = S (String.length s + String.length t)).
  by rewrite IH.
Qed.

Lemma has_char_rev_app (c : ascii) (s acc : string) :
  Text.has_char c s = false → Text.has_char c acc = false →
  Text.has_char c (String.rev s +:+ acc) = false.
Proof.
  revert acc. induction s as [|x s IH]; intros acc Hs Hacc; [done|].
  simpl in Hs. apply orb_false_elim in Hs as [Hx Hs].
  rewrite string_rev_cons, <- string_app_assoc.
  apply IH; [done|]. change (Text.has_char c (String x acc) = false).
  simpl. by rewrite Hx, Hacc.
Qed.

Lemma has_char_rev (c : ascii) (s : string) :
  Text.has_char c s = false → Text.has_char c (String.rev s) = false.
Proof.
  intros Hs. rewrite <- (string_app_nil_r (String.rev s)).
  by apply has_char_rev_app.
Qed.

Lemma has_char_take_while (c : ascii) (cls : ascii → bool) (s : string) :
  Text.has_char c s = false → Text.has_char c (Regex.take_while cls s) = false.
Proof.
  induction s as [|x s IH]; simpl; [done|].
  intros [Hx Hs]%orb_false_elim. destruct (cls x); simpl; [|done].
  by rewrite Hx, IH.
Qed.

(** The last piece of a split holds no separator. *)
Lemma split_go_last_clean (sep : ascii) (cur s : string) :
  Text.has_char sep cur = false →
  Text.has_char sep (List.last (JS.split_go sep cur s) "") = false.
Proof.
  revert cur. induction s as [|c s IH]; intros cur Hcur; simpl.
  - by apply has_char_rev.
  - destruct (Ascii.eqb c sep) eqn:Hc.
    + pose proof (split_go_nonempty sep "" s) as Hne. specialize (IH "" eq_refl).
      destruct (JS.split_go sep "" s); done.
    + apply IH. simpl. by rewrite Hc, Hcur.
Qed.

(** A text without separator, appended, stays in the last piece. *)
Lemma split_go_last_app (sep : ascii) (cur s t : string) :
  Text.has_char sep t = false →
  List.last (JS.split_go sep cur (s +:+ t)) ""
  = List.last (JS.split_go sep cur s) "" +:+ t.
Proof.
  intros Ht. revert cur. induction s as [|c s IH]; intros cur.
  - change (List.last (JS.split_go sep cur t) ""
            = List.last (JS.split_go sep cur "") "" +:+ t).
    by rewrite split_go_no_sep.
  - change (List.last (JS.split_go sep cur (String c (s +:+ t))) ""
            = List.last (JS.split_go sep cur (String c s)) "" +:+ t).
    simpl. destruct (Ascii.eqb c sep); [|apply IH].
    pose proof (split_go_nonempty sep "" (s +:+ t)) as Hne1.
    pose proof (split_go_nonempty sep "" s) as Hne2. specialize (IH "").
    destruct (JS.split_go sep "" (s +:+ t)), (JS.split_go sep "" s); done.
Qed.

Lemma uuid_of_url_no_slash (url : string) :
  Text.has_char "/" (uuid_of_url url) = false.
Proof.
  unfold uuid_of_url, JS.first, JS.split, JS.pop. rewrite split_go_first.
  apply has_char_take_while. by apply split_go_last_clean.
Qed.

(** ** Paths *)

Lemma glb_filename_as_glb (slug uuid : string) :
  glb_filename slug uuid = (slug +:+ "__" +:+ uuid) +:+ ".glb".
Proof.
  unfold glb_filename.
  by rewrite (string_app_assoc slug "__" (uuid +:+ ".glb")),
    (string_app_assoc (slug +:+ "__") uuid ".glb"),
    <- (string_app_assoc slug "__" uuid).
Qed.

Lemma glb_filename_clean (slug uuid : string) :
  Text.has_char "/" slug = false → Text.has_char "/" uuid = false →
  Text.has_char "/" (glb_filename slug uuid) = false.
Proof.
  intros Hs Hu. unfold glb_filename. rewrite !has_char_app, Hs, Hu. reflexivity.
Qed.

(** A plain name is written where it is asked for, or not at all. *)
Lemma fs_target_plain (env : Env) (t : nat) (dir name : string) :
  Text.has_char "/" name = false → JS.names_a_file name = true →
  fs_target env t dir name = Some (dir, name).
Proof. intros Hs Hn. unfold fs_target. by rewrite Hs, Hn. Qed.

Lemma fs_target_plain_inv (env : Env) (t : nat) (dir name d f : string) :
  Text.has_char "/" name = false →
  fs_target env t dir name = Some (d, f) → d = dir ∧ f = name.
Proof.
  intros Hs. unfold fs_target. rewrite Hs.
  destruct (JS.names_a_file name); [|done]. by intros [= <- <-].
Qed.

Lemma fs_target_glb_filename (env : Env) (t : nat) (dir slug uuid : string) :
  Text.has_char "/" slug = false → Text.has_char "/" uuid = false →
  JS.names_a_file (glb_filename slug uuid) = true →
  fs_target env t dir (glb_filename slug uuid)
  = Some (dir, glb_filename slug uuid).
Proof.
  intros Hs Hu Hn. apply fs_target_plain; [by apply glb_filename_clean | done].
Qed.

(** Wherever a model file lands, its name ends in [.glb]. *)
Lemma fs_target_glb (env : Env) (t : nat) (dir s d f : string) :
  fs_target env t dir (s +:+ ".glb") = Some (d, f) →
  JS.endsWith f ".glb" = true.
Proof.
  unfold fs_target. destruct (Text.has_char "/" (s +:+ ".glb")).
  - unfold JS.pop, JS.split. rewrite split_go_last_app by reflexivity.
    destruct (JS.names_a_file _); [|done].
    destruct (fs_nested env t dir _); intros [= <- <-]. apply endsWith_app.
  - destruct (JS.names_a_file _); [|done].
    intros [= <- <-]. apply endsWith_app.
Qed.

(** The model file of an item of [find-items.js] has a plain name. *)
Lemma item_glb_clean (url : string) :
  Text.has_char "/" (JS.pop (JS.split "/" url) +:+ ".glb") = false.
Proof.
  rewrite has_char_app. unfold JS.pop, JS.split.
  by rewrite split_go_last_clean.
Qed.

Lemma fs_target_glb_filename_glb (env : Env) (t : nat)
    (dir slug uuid d f : string) :
  fs_target env t dir (glb_filename slug uuid) = Some (d, f) →
  JS.endsWith f ".glb" = true.
Proof. rewrite glb_filename_as_glb. apply fs_target_glb. Qed.

(** ** Running programs *)

Ltac run :=
  unfold exec, try_catch, bind, ret, throw, act, gets, response_json,
    axios, fs_writeFile, fs_readFile, page_goto, page_waitForNavigation,
    page_waitForTimeout, page_removeListener, page_on, page_evaluate,
    Direct.assign_mapping in *;
  simpl in *.

Ltac cases := repeat (case_match; simplify_eq/=; run).

Ltac quiet_events :=
  first [ by exists []; rewrite app_nil_r
        | by eexists [_]; split; [reflexivity | repeat constructor]
        | by eexists [_; _]; split;
            [rewrite <- ?app_assoc; reflexivity | repeat constructor]
        | by eexists [_; _; _]; split;
            [rewrite <- ?app_assoc; reflexivity | repeat constructor] ].

(** The listeners of the three scripts are quiet. *)

Lemma IndexJs_quiet : QuietListener IndexJs.Closure (gmap string string).
Proof.
  split; intros env h r w; simpl; unfold IndexJs.responseHandler; run.
  - cases; reflexivity.
  - cases; reflexivity.
  - cases; quiet_events.
Qed.

Lemma Direct_quiet : QuietListener Direct.Closure unit.
Proof.
  split; intros env h r w; simpl;
    unfold Direct.createResponseHandler, Direct.downloadGlbFile; run.
  - cases; reflexivity.
  - cases; reflexivity.
  - cases; quiet_events.
Qed.

Lemma FindItems_quiet : QuietListener FindItems.Closure (gmap nat string).
Proof.
  split; intros env h r w; simpl; unfold FindItems.handleResponse; run.
  - cases; reflexivity.
  - cases; reflexivity.
  - exists []. rewrite app_nil_r.
    cases; split; constructor.
Qed.

#[global] Existing Instance IndexJs_quiet.
#[global] Existing Instance Direct_quiet.
#[global] Existing Instance FindItems_quiet.

Section PageFacts.
Context {H M : Type} `{!Listener H M} `{!QuietListener H M}.
Variable env : Env.

Lemma deliver_frame (r : Response) (w : World H M) :
  listeners (deliver env r w) = listeners w
  ∧ next_id (deliver env r w) = next_id w
  ∧ ∃ t, trace (deliver env r w) = trace w ++ t ∧ Forall Spec.quiet t.
Proof.
  unfold deliver. generalize (listeners w) at 1 3 4 as ls.
  intros ls. revert w. induction ls as [|l ls IH]; intros w; simpl.
  - split_and!; try done. exists []. by rewrite app_nil_r.
  - destruct (IH (invoke env l.2 r w)) as (Hl & Hn & t & Ht & Hq).
    destruct (invoke_trace env l.2 r w) as (t0 & Ht0 & Hq0).
    rewrite Hl, Hn, Ht, invoke_listeners, invoke_next_id, Ht0.
    split_and!; try done. exists (t0 ++ t). rewrite app_assoc. split; [done|].
    by apply Forall_app.
Qed.

Lemma deliver_all_frame (rs : list Response) (w : World H M) :
  listeners (deliver_all env rs w) = listeners w
  ∧ next_id (deliver_all env rs w) = next_id w
  ∧ ∃ t, trace (deliver_all env rs w) = trace w ++ t ∧ Forall Spec.quiet t.
Proof.
  unfold deliver_all. revert w. induction rs as [|r rs IH]; intros w; simpl.
  - split_and!; try done. exists []. by rewrite app_nil_r.
  - destruct (IH (deliver env r w)) as (Hl & Hn & t & Ht & Hq).
    destruct (deliver_frame r w) as (Hl0 & Hn0 & t0 & Ht0 & Hq0).
    rewrite Hl, Hn, Ht, Hl0, Hn0, Ht0.
    split_and!; try done. exists (t0 ++ t). rewrite app_assoc. split; [done|].
    by apply Forall_app.
Qed.

End PageFacts.

(** ** The dedup check of [index.js] *)

Lemma readdir_lists_file (d : Disk) (dir name : string) (c : Content) :
  d !! (dir, name) = Some c → In name (readdir d dir).
Proof.
  intros Hd. unfold readdir. apply in_map_iff. exists ((dir, name), c). split; [done|].
  apply filter_In. split.
  - apply list_elem_of_In, elem_of_map_to_list. exact Hd.
  - simpl. apply String.eqb_refl.
Qed.

Lemma fileExists_intro (names : list string) (slug name : string) :
  In name names →
  JS.startsWith name (slug +:+ "__") = true →
  JS.endsWith name ".glb" = true →
  IndexJs.fileExists names slug = true.
Proof.
  intros Hin Hs He. unfold IndexJs.fileExists. apply existsb_exists.
  exists name. split; [done|]. by rewrite Hs, He.
Qed.

(** Resuming: once the listener of [index.js] has stored the file of an
    icon, the dedup check finds it. *)
Lemma index_js_finds_stored_icon (d : Disk) (dir slug uuid : string)
    (c : Content) :
  IndexJs.fileExists (readdir (<[(dir, glb_filename slug uuid) := c]> d) dir)
    slug = true.
Proof.
  apply (fileExists_intro _ slug (glb_filename slug uuid)).
  - apply (readdir_lists_file _ dir _ c), lookup_insert_eq.
  - apply glb_filename_startsWith.
  - apply glb_filename_endsWith.
Qed.

(** C1, as amended: in the pack scraper of [index.js], an icon whose pack
    directory already holds a file named [<slug>__....glb] is skipped: the
    run is left exactly as it was, so no listener is registered, nothing is
    navigated to or fetched, and the slug-to-UUID map is unchanged. *)
Theorem index_js_skips_downloaded_icon
    (env : Env) (packDir slug name : string) (c : Content)
    (w : World IndexJs.Closure (gmap string string)) :
  disk w !! (packDir, name) = Some c →
  JS.startsWith name (slug +:+ "__") = true →
  JS.endsWith name ".glb" = true →
  IndexJs.processIcon env packDir slug w = (Normal tt, w).
Proof.
  intros Hd Hs He. unfold IndexJs.processIcon, fs_readdirSync. run.
  rewrite (fileExists_intro _ slug name); [reflexivity | | done | done].
  by eapply readdir_lists_file.
Qed.

Lemma index_js_skips_downloaded_icon_witness :
  IndexJs.processIcon Scenario.env_resolves "glb/pack" "foo"
    (IndexJs.start Scenario.disk_index_foo)
  = (Normal tt, IndexJs.start Scenario.disk_index_foo).
Proof.
  apply (index_js_skips_downloaded_icon Scenario.env_resolves "glb/pack" "foo"
           "foo__abc123.glb" (Binary "GLB"));
    vm_compute; reflexivity.
Defined.

(** C1 fails on [find-items.js]: its [downloadGlbFile] never looks at the
    folder. With [foo__abc123.glb] already there, it registers a listener,
    navigates, fetches and writes again. *)
Lemma find_items_resolves_again_despite_file :
  Scenario.disk_find_foo !! ("downloads/Pack", "foo__abc123.glb")
    = Some (Binary "GLB")
  ∧ JS.startsWith "foo__abc123.glb" ("foo" +:+ "__") = true
  ∧ JS.endsWith "foo__abc123.glb" ".glb" = true
  ∧ trace (exec (FindItems.downloadGlbFile Scenario.env_resolves Scenario.item_foo)
             (FindItems.start Scenario.disk_find_foo))
    = [ EvOn 0 "foo";
        EvGoto "https://pixcap.com/design/create?slug=foo";
        EvWaitForNavigation;
        EvTimeout 5000;
        EvOff 0;
        EvAxiosGet "https://cdn.example/x";
        EvWriteFile "downloads/Pack" "foo.glb" ].
Proof. vm_compute. repeat split. Qed.

(** ** Register, then navigate *)

Lemma quiet_no_goto (e : Event) : Spec.quiet e → ∀ url, e ≠ EvGoto url.
Proof. intros Hq url ->. exact Hq. Qed.

Lemma resolution_ordered_skip (slug : string) (before : list Event) :
  Spec.ResolutionOrdered true slug before before.
Proof.
  exists []. split; [by rewrite app_nil_r|]. split; [|done].
  intros i Hi. by rewrite lookup_nil in Hi.
Qed.

Lemma resolution_ordered_intro (slug : string) (before after rest : list Event)
    (id : nat) :
  after = before ++ EvOn id slug :: EvGoto (create_url slug) :: rest →
  Forall (λ e, ∀ url, e ≠ EvGoto url) rest →
  Spec.ResolutionOrdered false slug before after.
Proof.
  intros -> Hrest. eexists. split; [reflexivity|]. split.
  - intros [|[|i]] Hi; simpl in Hi.
    + discriminate.
    + exists 0, id. split; [lia|]. split; [reflexivity|]. intros k Hk. lia.
    + exfalso. rewrite Forall_lookup in Hrest.
      by apply (Hrest i _ Hi (create_url slug)).
  - by exists id, rest.
Qed.

Ltac frames :=
  repeat match goal with
  | |- context [trace (deliver_all ?env ?rs ?w)] =>
      let t := fresh "t" in
      let Ht := fresh "Ht" in
      let Hq := fresh "Hq" in
      destruct (deliver_all_frame env rs w) as (_ & _ & t & Ht & Hq);
      rewrite Ht; clear Ht; simpl
  end.

Ltac no_goto :=
  repeat first
    [ apply Forall_nil_2
    | apply Forall_cons_2; [intros ? ?; discriminate|]
    | apply Forall_app_2
    | eapply Forall_impl; [eassumption | exact quiet_no_goto] ].

Ltac ordered :=
  eapply resolution_ordered_intro;
    [ rewrite <- ?app_assoc; simpl; reflexivity | no_goto ].

Lemma index_js_resolution_ordered (env : Env) (packDir slug : string)
    (w : World IndexJs.Closure (gmap string string)) :
  Spec.ResolutionOrdered (IndexJs.fileExists (readdir (disk w) packDir) slug)
    slug (trace w) (trace (exec (IndexJs.processIcon env packDir slug) w)).
Proof.
  unfold IndexJs.processIcon, fs_readdirSync. run.
  destruct (IndexJs.fileExists _ _); [apply resolution_ordered_skip|].
  cases; frames; ordered.
Qed.

Lemma direct_resolution_ordered (env : Env) (dom : Dom Direct.Document)
    (slug : string) (w : World Direct.Closure unit) :
  Spec.ResolutionOrdered false slug (trace w)
    (trace (exec (Direct.processIcon env dom slug) w)).
Proof.
  unfold Direct.processIcon, Direct.use_presignedResponse,
    Direct.evaluate_fetch, Direct.downloadGlbFile. run.
  cases; frames; ordered.
Qed.

Lemma find_items_resolution_ordered (env : Env) (item : FindItems.Item)
    (w : World FindItems.Closure (gmap nat string)) :
  Spec.ResolutionOrdered false (JS.pop (JS.split "/" (FindItems.itemUrl item)))
    (trace w) (trace (exec (FindItems.downloadGlbFile env item) w)).
Proof.
  unfold FindItems.downloadGlbFile. run.
  cases; frames; ordered.
Qed.

(** C2: on every resolution path the response listener for the slug is
    registered and the navigation to the create URL built from that slug
    comes right after it, with no other navigation in the rest of the
    resolution. The loop of the direct downloader and [downloadGlbFile] of
    [find-items.js] always do so; the icon loop of [index.js] does so unless
    the dedup check finds a file of the icon, in which case it does nothing
    at all. *)
Theorem listener_registered_before_navigation (env : Env) :
  (∀ packDir slug (w : World IndexJs.Closure (gmap string string)),
     Spec.ResolutionOrdered
       (IndexJs.fileExists (readdir (disk w) packDir) slug) slug (trace w)
       (trace (exec (IndexJs.processIcon env packDir slug) w)))
  ∧ (∀ dom slug (w : World Direct.Closure unit),
       Spec.ResolutionOrdered false slug (trace w)
         (trace (exec (Direct.processIcon env dom slug) w)))
  ∧ (∀ item (w : World FindItems.Closure (gmap nat string)),
       Spec.ResolutionOrdered false
         (JS.pop (JS.split "/" (FindItems.itemUrl item)))
         (trace w) (trace (exec (FindItems.downloadGlbFile env item) w))).
Proof.
  split_and!.
  - intros. apply index_js_resolution_ordered.
  - intros. apply direct_resolution_ordered.
  - intros. apply find_items_resolution_ordered.
Qed.

(** ** Removing the listener *)

(** When the navigation settles, [index.js] removes the listener it
    registered: the listeners are the ones from before the icon. *)
Lemma index_js_listener_removed_when_settled (env : Env) (packDir slug : string)
    (w : World IndexJs.Closure (gmap string string)) :
  Forall (λ l, l.1 < next_id w) (listeners w) →
  (goto_load env (S (clock w)) (create_url slug)).2 = true →
  listeners (exec (IndexJs.processIcon env packDir slug) w) = listeners w.
Proof.
  intros Hfresh Hsettled. unfold IndexJs.processIcon, fs_readdirSync. run.
  destruct (IndexJs.fileExists _ _); [reflexivity|].
  unfold clock in *. simpl. rewrite length_app, Nat.add_1_r. simpl.
  destruct (goto_load env _ _) as [rs settled]. simpl in Hsettled. subst settled.
  run.
  repeat match goal with
  | |- context [listeners (deliver_all ?e ?rs ?w)] =>
      rewrite (proj1 (deliver_all_frame e rs w)); simpl
  end.
  rewrite List.filter_app. simpl. rewrite Nat.eqb_refl. simpl. rewrite app_nil_r.
  clear -Hfresh. induction Hfresh as [|l ls Hl _ IH]; simpl; [done|].
  destruct (Nat.eqb_spec l.1 (next_id w)); [lia|]. simpl. by rewrite IH.
Qed.

(** When the navigation throws, the removal is never reached: the listener
    just registered stays. *)
Lemma index_js_listener_left_when_navigation_throws (env : Env)
    (packDir slug : string) (w : World IndexJs.Closure (gmap string string)) :
  IndexJs.fileExists (readdir (disk w) packDir) slug = false →
  (goto_load env (S (clock w)) (create_url slug)).2 = false →
  listeners (exec (IndexJs.processIcon env packDir slug) w)
  = listeners w ++ [(next_id w, IndexJs.mkClosure slug packDir)].
Proof.
  intros Hnew Hthrows. unfold IndexJs.processIcon, fs_readdirSync. run.
  rewrite Hnew.
  unfold clock in *. simpl. rewrite length_app, Nat.add_1_r. simpl.
  destruct (goto_load env _ _) as [rs settled]. simpl in Hthrows. subst settled.
  run. by rewrite (proj1 (deliver_all_frame env rs _)).
Qed.

(** C3 fails on the code: a navigation that times out throws past the
    removal. After the icon [a] its listener is still registered, after two
    such icons two listeners are live, and the listener left by [a] answers
    the response meant for [b]: it stores [b]'s asset under [a]'s name. The
    same holds for [downloadGlbFile] of [find-items.js]. *)
Theorem listener_leaks_when_navigation_times_out :
  listeners (exec (IndexJs.processIcon Scenario.env_timeout "glb/pack" "a")
               (IndexJs.start ∅))
    = [(0, IndexJs.mkClosure "a" "glb/pack")]
  ∧ List.map fst
      (listeners (exec (for_of ["a"; "b"]
                          (IndexJs.processIcon Scenario.env_timeout "glb/pack"))
                    (IndexJs.start ∅)))
    = [0; 1]
  ∧ (let w := exec (for_of ["a"; "b"]
                      (IndexJs.processIcon Scenario.env_a_times_out "glb/pack"))
                (IndexJs.start ∅) in
     disk w !! ("glb/pack", "a__abc123.glb") = Some (Binary "GLB")
     ∧ mem w !! "a" = Some "abc123")
  ∧ List.map fst
      (listeners (exec (FindItems.downloadGlbFile Scenario.env_timeout
                          Scenario.item_foo)
                    (FindItems.start ∅)))
    = [0].
Proof. vm_compute. repeat split. Qed.

(** ** Storing an asset *)

Lemma glb_filename_not_json (slug uuid name : string) :
  JS.endsWith name ".glb" = false → glb_filename slug uuid ≠ name.
Proof.
  intros Hname Heq. rewrite <- Heq, glb_filename_endsWith in Hname. discriminate.
Qed.

(** C4, as amended: when the fetch of the signed URL fails, no file is
    written. In the direct downloaders nothing at all reaches the disk, so the
    mapping file gains no entry either; in [index.js] the disk is unchanged
    as well, the entry of the in-memory map being already made by then. *)
Theorem failed_fetch_writes_no_file (env : Env) :
  (∀ c r u ct (w : World IndexJs.Closure (gmap string string)),
     r_body r = BodyObject (Some u) ct →
     axios_get env (clock w) u = None →
     disk (exec (IndexJs.responseHandler env c r) w) = disk w)
  ∧ (∀ u slug uuid (w : World Direct.Closure unit),
       axios_get env (clock w) u = None →
       disk (exec (Direct.downloadGlbFile env u slug uuid) w) = disk w)
  ∧ (∀ c r u ct (w : World Direct.Closure unit),
       r_body r = BodyObject (Some u) ct →
       axios_get env (clock w) u = None →
       disk (exec (Direct.createResponseHandler env c r) w) = disk w).
Proof.
  split_and!.
  - intros c r u ct w Hbody Hfetch. unfold IndexJs.responseHandler. run.
    rewrite Hbody. unfold clock in *. cases; reflexivity.
  - intros u slug uuid w Hfetch. unfold Direct.downloadGlbFile. run.
    by rewrite Hfetch.
  - intros c r u ct w Hbody Hfetch.
    unfold Direct.createResponseHandler, Direct.downloadGlbFile. run.
    rewrite Hbody. unfold clock in *. cases; reflexivity.
Qed.

Lemma failed_fetch_writes_no_file_witness :
  disk (exec (IndexJs.responseHandler Scenario.env_fetch_fails
                (IndexJs.mkClosure "foo" "glb/pack") Scenario.resp_abc123)
          (IndexJs.start ∅)) = ∅
  ∧ disk (exec (Direct.downloadGlbFile Scenario.env_fetch_fails
                  "https://cdn.example/x" "foo" "abc123")
            (Direct.start ∅)) = ∅.
Proof.
  destruct (failed_fetch_writes_no_file Scenario.env_fetch_fails)
    as (Hindex & Hdirect & _).
  split.
  - apply (Hindex _ _ "https://cdn.example/x" (Some "model/gltf-binary"));
      reflexivity.
  - apply Hdirect. reflexivity.
Defined.

(** C4 fails on [index.js]: its listener sets the map entry before it
    fetches. With a fetch that fails, a whole run writes no [.glb] file and
    yet saves a mapping with the entry of [foo]. *)
Lemma index_js_maps_slug_of_failed_download :
  let w := exec (IndexJs.main Scenario.env_fetch_fails Scenario.dom_one_pack)
             (IndexJs.start ∅) in
  axios_get Scenario.env_fetch_fails 4 "https://cdn.example/x" = None
  ∧ trace w
    = [ EvGoto "https://pixcap.com/3d-icon-packs";
        EvGoto "https://pixcap.com/pack/p";
        EvOn 0 "foo";
        EvGoto "https://pixcap.com/design/create?slug=foo";
        EvAxiosGet "https://cdn.example/x";
        EvTimeout 5000;
        EvOff 0;
        EvWriteFile "glb" "slug-uuid-mapping.json" ]
  ∧ mem w !! "foo" = Some "abc123"
  ∧ disk w !! ("glb/p", "foo__abc123.glb") = None
  ∧ Spec.saved_entry (disk w) "glb" "slug-uuid-mapping.json" "foo"
    = Some "abc123".
Proof. vm_compute. repeat split. Qed.

Lemma assign_lookup_eq (m : gmap string string) (key value : string) :
  key ≠ "__proto__" → JS.assign m key value !! key = Some value.
Proof.
  intros Hkey%String.eqb_neq. unfold JS.assign. rewrite Hkey. simpl.
  apply lookup_insert_eq.
Qed.

Lemma assign_lookup_ne (m : gmap string string) (key value k : string) :
  k ≠ key → JS.assign m key value !! k = m !! k.
Proof.
  intros Hk. unfold JS.assign.
  destruct (_ && _); [done | by apply lookup_insert_ne].
Qed.

Lemma assign_keeps (m : gmap string string) (key value k : string) :
  is_Some (m !! k) → is_Some (JS.assign m key value !! k).
Proof.
  intros Hk. unfold JS.assign. destruct (_ && _); [done|].
  destruct (decide (key = k)) as [<-|Hne].
  - rewrite lookup_insert_eq. by eexists.
  - by rewrite lookup_insert_ne.
Qed.

(** What a store of the direct downloader does when the model file has a
    plain name and the mapping file reads as an object. *)
Lemma direct_store (env : Env) (u slug uuid data : string)
    (m : gmap string string) (w : World Direct.Closure unit) :
  axios_get env (clock w) u = Some data →
  Text.has_char "/" slug = false → Text.has_char "/" uuid = false →
  JS.names_a_file (glb_filename slug uuid) = true →
  Direct.load_mappings (disk w !! (Direct.OUTPUT_DIR, Direct.MAPPING_FILE))
    = Direct.ParsedObject m →
  disk (exec (Direct.downloadGlbFile env u slug uuid) w)
  = <[(Direct.OUTPUT_DIR, Direct.MAPPING_FILE)
        := JsonObject (JS.assign m slug uuid)]>
      (<[(Direct.OUTPUT_DIR, glb_filename slug uuid) := Binary data]> (disk w)).
Proof.
  intros Hfetch Hslug Huuid Hname Hload.
  assert (glb_filename slug uuid ≠ Direct.MAPPING_FILE) as Hne
    by (by apply glb_filename_not_json).
  unfold Direct.downloadGlbFile. run. rewrite Hfetch. simpl.
  rewrite fs_target_glb_filename by done. simpl.
  rewrite lookup_insert_ne by congruence. rewrite Hload. simpl.
  reflexivity.
Qed.

Lemma item_page_store (env : Env) (u slug uuid data : string)
    (m : gmap string string) (w : World ItemPage.Closure unit) :
  axios_get env (clock w) u = Some data →
  Text.has_char "/" slug = false → Text.has_char "/" uuid = false →
  JS.names_a_file (glb_filename slug uuid) = true →
  Direct.load_mappings (disk w !! (ItemPage.OUTPUT_DIR, ItemPage.MAPPING_FILE))
    = Direct.ParsedObject m →
  disk (exec (ItemPage.downloadGlbFile env u slug uuid) w)
  = <[(ItemPage.OUTPUT_DIR, ItemPage.MAPPING_FILE)
        := JsonObject (JS.assign m slug uuid)]>
      (<[(ItemPage.OUTPUT_DIR, glb_filename slug uuid) := Binary data]>
         (disk w)).
Proof.
  intros Hfetch Hslug Huuid Hname Hload.
  assert (glb_filename slug uuid ≠ ItemPage.MAPPING_FILE) as Hne
    by (by apply glb_filename_not_json).
  unfold ItemPage.downloadGlbFile. run. rewrite Hfetch. simpl.
  rewrite fs_target_glb_filename by done. simpl.
  rewrite lookup_insert_ne by congruence. rewrite Hload. simpl.
  reflexivity.
Qed.

Lemma reads_as_object_parsed (existing : option Content) :
  Spec.reads_as_object existing →
  ∃ m, Direct.load_mappings existing = Direct.ParsedObject m.
Proof.
  unfold Spec.reads_as_object.
  destruct (Direct.load_mappings existing); [by eexists | done | done].
Qed.

(** C5, as amended: in [index.js] and in the direct downloaders, for a slug
    without [/] that makes [<slug>__<uuid>.glb] a name a file can have, a
    resolution with identifier [uuid] whose fetch succeeds writes the bytes
    to the file of that name in the script's directory for it (the pack
    directory, respectively the output directory). In [index.js] the
    in-memory map then sends the slug to [uuid]; in the direct downloaders
    the mapping file does, when the slug is not [__proto__] and the file
    was missing, unreadable or a JSON object. The store is one that runs to
    its end with no other store in between. *)
Theorem stored_file_is_named_slug_uuid (env : Env) :
  (∀ c r u ct data (w : World IndexJs.Closure (gmap string string)),
     JS.includes (r_url r) PRESIGNED_ENDPOINT = true →
     r_body r = BodyObject (Some u) ct →
     u ≠ "" →
     axios_get env (clock w) u = Some data →
     Text.has_char "/" (IndexJs.iconSlug c) = false →
     JS.names_a_file (glb_filename (IndexJs.iconSlug c) (uuid_of_url (r_url r)))
       = true →
     let uuid := uuid_of_url (r_url r) in
     let w' := exec (IndexJs.responseHandler env c r) w in
     disk w' = <[(IndexJs.packDir c, glb_filename (IndexJs.iconSlug c) uuid)
                   := Binary data]> (disk w)
     ∧ mem w' !! IndexJs.iconSlug c = Some uuid)
  ∧ (∀ u slug uuid data (w : World Direct.Closure unit),
       axios_get env (clock w) u = Some data →
       Text.has_char "/" slug = false →
       Text.has_char "/" uuid = false →
       JS.names_a_file (glb_filename slug uuid) = true →
       slug ≠ "__proto__" →
       Spec.reads_as_object
         (disk w !! (Direct.OUTPUT_DIR, Direct.MAPPING_FILE)) →
       let w' := exec (Direct.downloadGlbFile env u slug uuid) w in
       disk w' !! (Direct.OUTPUT_DIR, glb_filename slug uuid)
         = Some (Binary data)
       ∧ (∀ dir name, name ≠ glb_filename slug uuid →
                      name ≠ Direct.MAPPING_FILE →
                      disk w' !! (dir, name) = disk w !! (dir, name))
       ∧ Spec.saved_entry (disk w') Direct.OUTPUT_DIR Direct.MAPPING_FILE slug
         = Some uuid)
  ∧ (∀ u slug uuid data (w : World ItemPage.Closure unit),
       axios_get env (clock w) u = Some data →
       Text.has_char "/" slug = false →
       Text.has_char "/" uuid = false →
       JS.names_a_file (glb_filename slug uuid) = true →
       slug ≠ "__proto__" →
       Spec.reads_as_object
         (disk w !! (ItemPage.OUTPUT_DIR, ItemPage.MAPPING_FILE)) →
       let w' := exec (ItemPage.downloadGlbFile env u slug uuid) w in
       disk w' !! (ItemPage.OUTPUT_DIR, glb_filename slug uuid)
         = Some (Binary data)
       ∧ (∀ dir name, name ≠ glb_filename slug uuid →
                      name ≠ ItemPage.MAPPING_FILE →
                      disk w' !! (dir, name) = disk w !! (dir, name))
       ∧ Spec.saved_entry (disk w') ItemPage.OUTPUT_DIR ItemPage.MAPPING_FILE
           slug
         = Some uuid).
Proof.
  split_and!.
  - intros c r u ct data w Hurl Hbody Hu Hfetch Hslug Hname uuid w'.
    subst uuid w'.
    unfold IndexJs.responseHandler. run. rewrite Hurl, Hbody.
    apply String.eqb_neq in Hu. run. rewrite Hu. simpl.
    unfold clock in *. simpl. rewrite Hfetch. simpl.
    rewrite fs_target_glb_filename by (done || apply uuid_of_url_no_slash).
    simpl. split; [reflexivity | apply lookup_insert_eq].
  - intros u slug uuid data w Hfetch Hslug Huuid Hname Hproto Hobj w'.
    subst w'.
    destruct (reads_as_object_parsed _ Hobj) as [m Hm].
    assert (glb_filename slug uuid ≠ Direct.MAPPING_FILE) as Hne
      by (by apply glb_filename_not_json).
    rewrite (direct_store env u slug uuid data m) by done.
    unfold Spec.saved_entry. split_and!.
    + rewrite lookup_insert_ne; [apply lookup_insert_eq | congruence].
    + intros dir name Hn1 Hn2. rewrite !lookup_insert_ne; congruence.
    + rewrite lookup_insert_eq. by apply assign_lookup_eq.
  - intros u slug uuid data w Hfetch Hslug Huuid Hname Hproto Hobj w'.
    subst w'.
    destruct (reads_as_object_parsed _ Hobj) as [m Hm].
    assert (glb_filename slug uuid ≠ ItemPage.MAPPING_FILE) as Hne
      by (by apply glb_filename_not_json).
    rewrite (item_page_store env u slug uuid data m) by done.
    unfold Spec.saved_entry. split_and!.
    + rewrite lookup_insert_ne; [apply lookup_insert_eq | congruence].
    + intros dir name Hn1 Hn2. rewrite !lookup_insert_ne; congruence.
    + rewrite lookup_insert_eq. by apply assign_lookup_eq.
Qed.

Lemma stored_file_is_named_slug_uuid_witness :
  (let w' := exec (IndexJs.responseHandler Scenario.env_resolves
                     (IndexJs.mkClosure "foo" "glb/pack") Scenario.resp_abc123)
               (IndexJs.start ∅) in
   disk w' = <[("glb/pack", glb_filename "foo" "abc123") := Binary "GLB"]> ∅
   ∧ mem w' !! "foo" = Some "abc123")
  ∧ disk (exec (Direct.downloadGlbFile Scenario.env_resolves
                  "https://cdn.example/x" "foo" "abc123")
            (Direct.start ∅))
      !! ("glb", "foo__abc123.glb") = Some (Binary "GLB")
  ∧ Spec.saved_entry
      (disk (exec (ItemPage.downloadGlbFile Scenario.env_resolves
                     "https://cdn.example/x" "foo" "abc123")
               (ItemPage.start ∅)))
      "glb" "item-mappings.json" "foo"
    = Some "abc123".
Proof.
  destruct (stored_file_is_named_slug_uuid Scenario.env_resolves)
    as (Hindex & Hdirect & Hitem).
  split_and!.
  - apply (Hindex (IndexJs.mkClosure "foo" "glb/pack") Scenario.resp_abc123
             "https://cdn.example/x" (Some "model/gltf-binary") "GLB");
      [reflexivity | reflexivity | discriminate | reflexivity | reflexivity
      | reflexivity].
  - apply (Hdirect "https://cdn.example/x" "foo" "abc123" "GLB");
      [reflexivity | reflexivity | reflexivity | reflexivity | discriminate
      | exact I].
  - apply (Hitem "https://cdn.example/x" "foo" "abc123" "GLB");
      [reflexivity | reflexivity | reflexivity | reflexivity | discriminate
      | exact I].
Defined.

(** C5 fails on [find-items.js]: it never reads the identifier, names the
    file [<slug>.glb] and keeps no slug-to-identifier mapping. *)
Lemma find_items_file_name_has_no_identifier :
  let w := exec (FindItems.downloadGlbFile Scenario.env_resolves Scenario.item_foo)
             (FindItems.start ∅) in
  uuid_of_url (r_url Scenario.resp_abc123) = "abc123"
  ∧ axios_get Scenario.env_resolves 5 "https://cdn.example/x" = Some "GLB"
  ∧ trace w
    = [ EvOn 0 "foo";
        EvGoto "https://pixcap.com/design/create?slug=foo";
        EvWaitForNavigation;
        EvTimeout 5000;
        EvOff 0;
        EvAxiosGet "https://cdn.example/x";
        EvWriteFile "downloads/Pack" "foo.glb" ]
  ∧ disk w !! ("downloads/Pack", glb_filename "foo" "abc123") = None
  ∧ disk w !! ("downloads/Pack", "foo.glb") = Some (Binary "GLB").
Proof. vm_compute. repeat split. Qed.

(** ** The mapping on disk *)

Section Invariants.
Context {H M : Type} `{!Listener H M}.
Variable env : Env.
Variable R : World H M → World H M → Prop.
Hypothesis R_refl : ∀ w, R w w.
Hypothesis R_trans : ∀ w1 w2 w3, R w1 w2 → R w2 w3 → R w1 w3.

Lemma deliver_all_related (rs : list Response) :
  (∀ h r w, In r rs → R w (invoke env h r w)) →
  ∀ w, R w (deliver_all env rs w).
Proof.
  intros Hinv. unfold deliver_all.
  induction rs as [|r rs IH]; intros w; simpl; [apply R_refl|].
  eapply R_trans; [|apply IH; intros; apply Hinv; by right].
  unfold deliver. generalize (listeners w) as ls. intros ls. revert w.
  induction ls as [|l ls IHl]; intros w; simpl; [apply R_refl|].
  eapply R_trans; [|apply IHl]. apply Hinv. by left.
Qed.

End Invariants.

(** The listener of [index.js] writes [.glb] files only. *)
Lemma index_js_handler_keeps_other_files (env : Env) (c : IndexJs.Closure)
    (r : Response) (dir name : string)
    (w : World IndexJs.Closure (gmap string string)) :
  JS.endsWith name ".glb" = false →
  disk (exec (IndexJs.responseHandler env c r) w) !! (dir, name)
  = disk w !! (dir, name).
Proof.
  intros Hname. unfold IndexJs.responseHandler. run.
  cases; try reflexivity.
  apply lookup_insert_ne. intros [= _ Heq]. subst.
  match goal with
  | Ht : fs_target _ _ _ _ = Some _ |- _ =>
      apply fs_target_glb_filename_glb in Ht; congruence
  end.
Qed.

Lemma index_js_icon_keeps_other_files (env : Env) (packDir slug dir name : string)
    (w : World IndexJs.Closure (gmap string string)) :
  JS.endsWith name ".glb" = false →
  disk (exec (IndexJs.processIcon env packDir slug) w) !! (dir, name)
  = disk w !! (dir, name).
Proof.
  intros Hname.
  assert (∀ rs (w0 : World IndexJs.Closure (gmap string string)),
            disk (deliver_all env rs w0) !! (dir, name)
            = disk w0 !! (dir, name)) as Hdel.
  { intros rs w0.
    apply (deliver_all_related env (λ w1 w2, disk w2 !! (dir, name)
                                             = disk w1 !! (dir, name))).
    - done.
    - intros w1 w2 w3 H12 H23. by rewrite H23.
    - intros h r w1 _. by apply index_js_handler_keeps_other_files. }
  unfold IndexJs.processIcon, fs_readdirSync. run.
  cases; rewrite ?Hdel; simpl; rewrite ?Hdel; reflexivity.
Qed.

(** C6, as amended: a store of the direct downloaders that runs to its end
    with no other store in between rewrites the mapping file right after the
    model file, with the new entry added to the entries read from the file
    (none when it is missing or unreadable), so that every other entry of a
    file that held a JSON object survives; the new entry itself is there
    unless the slug is [__proto__]. This is for a slug and an identifier
    without [/] that make [<slug>__<uuid>.glb] a name a file can have.
    [index.js] does not do so: processing an icon never touches
    its mapping file, which [main] writes once, at the end. *)
Theorem mapping_file_rewritten_after_store (env : Env) :
  (∀ u slug uuid data m (w : World Direct.Closure unit),
     axios_get env (clock w) u = Some data →
     Text.has_char "/" slug = false →
     Text.has_char "/" uuid = false →
     JS.names_a_file (glb_filename slug uuid) = true →
     Direct.load_mappings (disk w !! (Direct.OUTPUT_DIR, Direct.MAPPING_FILE))
       = Direct.ParsedObject m →
     let w' := exec (Direct.downloadGlbFile env u slug uuid) w in
     disk w' !! (Direct.OUTPUT_DIR, Direct.MAPPING_FILE)
       = Some (JsonObject (JS.assign m slug uuid))
     ∧ (slug ≠ "__proto__" → JS.assign m slug uuid !! slug = Some uuid)
     ∧ ∀ k v, k ≠ slug → m !! k = Some v →
              JS.assign m slug uuid !! k = Some v)
  ∧ (∀ u slug uuid data m (w : World ItemPage.Closure unit),
       axios_get env (clock w) u = Some data →
       Text.has_char "/" slug = false →
       Text.has_char "/" uuid = false →
       JS.names_a_file (glb_filename slug uuid) = true →
       Direct.load_mappings
         (disk w !! (ItemPage.OUTPUT_DIR, ItemPage.MAPPING_FILE))
         = Direct.ParsedObject m →
       let w' := exec (ItemPage.downloadGlbFile env u slug uuid) w in
       disk w' !! (ItemPage.OUTPUT_DIR, ItemPage.MAPPING_FILE)
         = Some (JsonObject (JS.assign m slug uuid))
       ∧ (slug ≠ "__proto__" → JS.assign m slug uuid !! slug = Some uuid)
       ∧ ∀ k v, k ≠ slug → m !! k = Some v →
                JS.assign m slug uuid !! k = Some v)
  ∧ (∀ packDir slug (w : World IndexJs.Closure (gmap string string)),
       disk (exec (IndexJs.processIcon env packDir slug) w)
         !! (IndexJs.OUTPUT_DIR, IndexJs.MAPPING_FILE)
       = disk w !! (IndexJs.OUTPUT_DIR, IndexJs.MAPPING_FILE))
  ∧ (∀ (w : World IndexJs.Closure (gmap string string)),
       disk (exec (IndexJs.saveMapping env) w)
         !! (IndexJs.OUTPUT_DIR, IndexJs.MAPPING_FILE)
       = Some (JsonObject (mem w))).
Proof.
  split_and!.
  - intros u slug uuid data m w Hfetch Hslug Huuid Hname Hload w'. subst w'.
    rewrite (direct_store env u slug uuid data m) by done.
    split_and!.
    + apply lookup_insert_eq.
    + apply assign_lookup_eq.
    + intros k v Hk Hv. by rewrite assign_lookup_ne.
  - intros u slug uuid data m w Hfetch Hslug Huuid Hname Hload w'. subst w'.
    rewrite (item_page_store env u slug uuid data m) by done.
    split_and!.
    + apply lookup_insert_eq.
    + apply assign_lookup_eq.
    + intros k v Hk Hv. by rewrite assign_lookup_ne.
  - intros packDir slug w. by apply index_js_icon_keeps_other_files.
  - intros w. unfold IndexJs.saveMapping. run. apply lookup_insert_eq.
Qed.

Lemma mapping_file_rewritten_after_store_witness :
  disk (exec (Direct.downloadGlbFile Scenario.env_resolves
                "https://cdn.example/x" "foo" "abc123")
          (Direct.start {[ ("glb", "icon-mappings.json")
                             := JsonObject {[ "bar" := "def456" ]} ]}))
    !! ("glb", "icon-mappings.json")
  = Some (JsonObject (JS.assign {[ "bar" := "def456" ]} "foo" "abc123")).
Proof.
  destruct (mapping_file_rewritten_after_store Scenario.env_resolves)
    as (Hdirect & _).
  apply (Hdirect "https://cdn.example/x" "foo" "abc123" "GLB");
    reflexivity.
Defined.

(** Where the amended statements stop. A slug with a [/] takes the model
    file out of the pack directory: with no directory [a] there, the write
    throws and nothing is stored, the map having its entry all the same;
    with one, the file lands in it, and the dedup check of the pack
    directory does not see it. *)
Lemma slug_with_slash_leaves_the_directory :
  (let w := exec (IndexJs.responseHandler Scenario.env_resolves
                    Edge.nested_icon Scenario.resp_abc123)
              (IndexJs.start ∅) in
   readdir (disk w) "glb/pack" = []
   ∧ disk w !! ("glb/pack/a", "b__abc123.glb") = None
   ∧ mem w !! "a/b" = Some "abc123")
  ∧ (let w := exec (IndexJs.responseHandler Edge.env_folders
                      Edge.nested_icon Scenario.resp_abc123)
                (IndexJs.start ∅) in
     disk w !! ("glb/pack/a", "b__abc123.glb") = Some (Binary "GLB")
     ∧ readdir (disk w) "glb/pack" = []
     ∧ IndexJs.fileExists (readdir (disk w) "glb/pack") "a/b" = false).
Proof. vm_compute. repeat split. Qed.

(** A mapping file that holds [null], or an array, gets no entry: the model
    file is stored, then the assignment throws, or the array is written
    back as it was. *)
Lemma store_over_other_json_adds_no_entry :
  (let w := exec (Direct.downloadGlbFile Scenario.env_resolves
                    "https://cdn.example/x" "foo" "abc123")
              (Direct.start (Edge.disk_mapping (JsonScalar "null"))) in
   disk w !! ("glb", "foo__abc123.glb") = Some (Binary "GLB")
   ∧ disk w !! ("glb", "icon-mappings.json") = Some (JsonScalar "null")
   ∧ Spec.saved_entry (disk w) "glb" "icon-mappings.json" "foo" = None)
  ∧ (let w := exec (Direct.downloadGlbFile Edge.env_folders
                      "https://cdn.example/x" "foo" "abc123")
                (Direct.start (Edge.disk_mapping (JsonArray "[]"))) in
     disk w !! ("glb", "foo__abc123.glb") = Some (Binary "GLB")
     ∧ disk w !! ("glb", "icon-mappings.json") = Some (JsonArray "[]")
     ∧ Spec.saved_entry (disk w) "glb" "icon-mappings.json" "foo" = None).
Proof. vm_compute. repeat split. Qed.

(** The slug [__proto__] gets no entry either: the assignment goes to the
    setter of the prototype, and the object is written back as it was. *)
Lemma store_of_proto_slug_adds_no_entry :
  let w := exec (Direct.downloadGlbFile Scenario.env_resolves
                   "https://cdn.example/x" "__proto__" "abc123")
             (Direct.start ∅) in
  disk w !! ("glb", "__proto____abc123.glb") = Some (Binary "GLB")
  ∧ Spec.saved_entry (disk w) "glb" "icon-mappings.json" "__proto__" = None
  ∧ is_Some (disk w !! ("glb", "icon-mappings.json")).
Proof. vm_compute. repeat split. by eexists. Qed.

(** C6 fails on [index.js]: after the icon [foo] is stored, its file is on
    disk and its entry is in memory, but there is no mapping file yet. *)
Lemma index_js_mapping_not_on_disk_after_store :
  let w := exec (IndexJs.processIcon Scenario.env_resolves "glb/pack" "foo")
             (IndexJs.start ∅) in
  disk w !! ("glb/pack", "foo__abc123.glb") = Some (Binary "GLB")
  ∧ mem w !! "foo" = Some "abc123"
  ∧ disk w !! (IndexJs.OUTPUT_DIR, IndexJs.MAPPING_FILE) = None.
Proof. vm_compute. repeat split. Qed.

(** ** Sets as arrays without duplicates *)

Lemma array_includes_In (a : list string) (v : string) :
  JS.array_includes a v = true ↔ In v a.
Proof.
  unfold JS.array_includes. rewrite existsb_exists. split.
  - intros (x & Hx & Heq). apply String.eqb_eq in Heq. by subst.
  - intros Hin. exists v. split; [done | apply String.eqb_refl].
Qed.

Lemma push_unique_In (a : list string) (v x : string) :
  In x (JS.push_unique a v) ↔ In x a ∨ x = v.
Proof.
  unfold JS.push_unique. destruct (JS.array_includes a v) eqn:Hinc.
  - apply array_includes_In in Hinc. split; [by left|]. intros [?| ->]; done.
  - rewrite in_app_iff. simpl. intuition congruence.
Qed.

Lemma push_unique_NoDup (a : list string) (v : string) :
  List.NoDup a → List.NoDup (JS.push_unique a v).
Proof.
  intros Hnd. unfold JS.push_unique.
  destruct (JS.array_includes a v) eqn:Hinc; [done|].
  apply NoDup_ListNoDup, NoDup_app. apply NoDup_ListNoDup in Hnd.
  split_and!; [done | | apply NoDup_singleton].
  intros x Hx Hv. apply list_elem_of_In in Hx.
  apply list_elem_of_singleton in Hv. subst x.
  apply array_includes_In in Hx. congruence.
Qed.

Lemma fold_push_unique_In (l a : list string) (x : string) :
  In x (fold_left JS.push_unique l a) ↔ In x a ∨ In x l.
Proof.
  revert a. induction l as [|v l IH]; intros a; simpl; [tauto|].
  rewrite IH, push_unique_In. intuition congruence.
Qed.

Lemma fold_push_unique_NoDup (l a : list string) :
  List.NoDup a → List.NoDup (fold_left JS.push_unique l a).
Proof.
  revert a. induction l as [|v l IH]; intros a Hnd; simpl; [done|].
  by apply IH, push_unique_NoDup.
Qed.

Lemma fold_push_unique_prefix (l a : list string) :
  ∃ added, fold_left JS.push_unique l a = a ++ added.
Proof.
  revert a. induction l as [|v l IH]; intros a; simpl.
  - exists []. by rewrite app_nil_r.
  - destruct (IH (JS.push_unique a v)) as (added & ->).
    unfold JS.push_unique. destruct (JS.array_includes a v).
    + by exists added.
    + exists (v :: added). by rewrite <- app_assoc.
Qed.

Lemma dedup_In (l : list string) (x : string) : In x (Spec.dedup l) ↔ In x l.
Proof. unfold Spec.dedup. rewrite fold_push_unique_In. simpl. tauto. Qed.

Lemma dedup_NoDup (l : list string) : List.NoDup (Spec.dedup l).
Proof. apply fold_push_unique_NoDup. constructor. Qed.

(** ** Collection-level extraction *)

Section ItemUrls.
Variable pathname : string → option string.

Lemma scanForItemLinks_filter (els urls : list string) :
  FindItems.scanForItemLinks urls els
  = fold_left JS.push_unique (List.filter Extraction.isItemLink els) urls.
Proof.
  unfold FindItems.scanForItemLinks. revert urls.
  induction els as [|href els IH]; intros urls; simpl; [done|].
  rewrite IH. unfold Extraction.isItemLink, JS.truthy.
  by destruct (negb (String.eqb href "") && JS.includes href "/item/").
Qed.

Lemma scan_groups_filter (groups : list (list string)) (urls : list string) :
  fold_left FindItems.scanForItemLinks groups urls
  = fold_left JS.push_unique
      (List.filter Extraction.isItemLink (concat groups)) urls.
Proof.
  revert urls. induction groups as [|g groups IH]; intros urls; simpl; [done|].
  by rewrite IH, scanForItemLinks_filter, List.filter_app, fold_left_app.
Qed.

Lemma getItemUrls_dedup (d : FindItems.Document) :
  FindItems.getItemUrls pathname d
  = List.map (FindItems.path_form pathname)
      (Spec.dedup (Extraction.all_heuristics d)).
Proof.
  unfold FindItems.getItemUrls, Spec.dedup, Extraction.all_heuristics.
  rewrite !scanForItemLinks_filter, !scan_groups_filter, !fold_left_app.
  reflexivity.
Qed.

End ItemUrls.

Lemma path_form_spec (pathname : string → option string) (href : string) :
  FindItems.path_form pathname href = Spec.path_form pathname href.
Proof.
  unfold FindItems.path_form, Spec.path_form. by destruct (pathname href).
Qed.

(** What [getItemUrls] returns: the references all four heuristics find,
    each kept once at its first occurrence, every one put in path form
    afterwards. As sets, this is the union of what the heuristics find, in
    path form, and so are the references of the specification. *)
Lemma item_urls_are_union_of_heuristics
    (pathname : string → option string) (d : FindItems.Document) :
  FindItems.getItemUrls pathname d
  = List.map (Spec.path_form pathname)
      (Spec.dedup (Extraction.all_heuristics d))
  ∧ (∀ p, In p (FindItems.getItemUrls pathname d) ↔
          ∃ href, (In href (Extraction.direct_anchors d)
                   ∨ In href (Extraction.component_anchors d)
                   ∨ In href (Extraction.card_anchors d)
                   ∨ In href (Extraction.library_tags d))
                  ∧ Spec.path_form pathname href = p)
  ∧ (∀ p, In p (FindItems.getItemUrls pathname d) ↔
          In p (Spec.item_references pathname (Extraction.all_heuristics d))).
Proof.
  assert (FindItems.getItemUrls pathname d
          = List.map (Spec.path_form pathname)
              (Spec.dedup (Extraction.all_heuristics d))) as Hcode.
  { rewrite getItemUrls_dedup. apply map_ext. intros href.
    apply path_form_spec. }
  split_and!.
  - exact Hcode.
  - intros p. rewrite Hcode, in_map_iff. split.
    + intros (href & Hp & Hin). exists href. rewrite dedup_In in Hin.
      unfold Extraction.all_heuristics in Hin.
      rewrite !in_app_iff in Hin. tauto.
    + intros (href & Hin & Hp). exists href. split; [done|].
      rewrite dedup_In. unfold Extraction.all_heuristics.
      rewrite !in_app_iff. tauto.
  - intros p. unfold Spec.item_references.
    rewrite Hcode, dedup_In, !in_map_iff. split.
    + intros (href & Hp & Hin). exists href. by rewrite <- dedup_In.
    + intros (href & Hp & Hin). exists href. by rewrite dedup_In.
Qed.

Lemma NoDup_map_injective {A B : Type} (f : A → B) (l : list A) (a b : A) :
  List.NoDup (List.map f l) → In a l → In b l → f a = f b → a = b.
Proof.
  induction l as [|x l IH]; simpl; [done|].
  intros Hnd [->|Ha] [->|Hb] Hf; [done | | |].
  - apply List.NoDup_cons_iff in Hnd as [Hx _]. exfalso. apply Hx.
    rewrite Hf. by apply in_map.
  - apply List.NoDup_cons_iff in Hnd as [Hx _]. exfalso. apply Hx.
    rewrite <- Hf. by apply in_map.
  - apply List.NoDup_cons_iff in Hnd as [_ Hnd]. by apply IH.
Qed.

(** C7 fails on the code: [getItemUrls] removes the duplicates among the
    references as they are found, and puts them in path form afterwards. As
    soon as the heuristics find two different references of one path, the
    array returned holds that path twice, where the references of the
    specification, deduplicated by normalized path, hold it once: the item
    is then resolved and downloaded twice. *)
Theorem item_urls_repeat_a_path (pathname : string → option string)
    (d : FindItems.Document) (href1 href2 : string) :
  In href1 (Extraction.all_heuristics d) →
  In href2 (Extraction.all_heuristics d) →
  href1 ≠ href2 →
  Spec.path_form pathname href1 = Spec.path_form pathname href2 →
  ¬ List.NoDup (FindItems.getItemUrls pathname d)
  ∧ List.NoDup
      (Spec.item_references pathname (Extraction.all_heuristics d))
  ∧ FindItems.getItemUrls pathname d
    ≠ Spec.item_references pathname (Extraction.all_heuristics d).
Proof.
  intros H1 H2 Hne Hpath.
  assert (¬ List.NoDup (FindItems.getItemUrls pathname d)) as Hdup.
  { rewrite (proj1 (item_urls_are_union_of_heuristics pathname d)).
    intros Hnd. apply Hne.
    by apply (NoDup_map_injective (Spec.path_form pathname)
                (Spec.dedup (Extraction.all_heuristics d)));
      rewrite ?dedup_In. }
  split_and!.
  - exact Hdup.
  - apply dedup_NoDup.
  - intros Heq. apply Hdup. rewrite Heq. apply dedup_NoDup.
Qed.

Lemma item_urls_repeat_a_path_witness :
  ¬ List.NoDup (FindItems.getItemUrls Scenario.pathname Scenario.dom_same_item)
  ∧ List.NoDup
      (Spec.item_references Scenario.pathname
         (Extraction.all_heuristics Scenario.dom_same_item))
  ∧ FindItems.getItemUrls Scenario.pathname Scenario.dom_same_item
    ≠ Spec.item_references Scenario.pathname
        (Extraction.all_heuristics Scenario.dom_same_item).
Proof.
  apply (item_urls_repeat_a_path Scenario.pathname Scenario.dom_same_item
           "https://pixcap.com/item/a?ref=grid"
           "https://pixcap.com/item/a?ref=list").
  - vm_compute. tauto.
  - vm_compute. tauto.
  - discriminate.
  - reflexivity.
Defined.

(** The run on that page: the two anchors of the item [a] give its path
    twice, where the specification has it once. *)
Lemma item_urls_may_repeat_a_path :
  FindItems.getItemUrls Scenario.pathname Scenario.dom_same_item
  = ["/item/a"; "/item/a"]
  ∧ Spec.item_references Scenario.pathname
      (Extraction.all_heuristics Scenario.dom_same_item)
    = ["/item/a"].
Proof. split; reflexivity. Qed.

(** ** Item-level slug extraction *)

(** C8, as amended: the extraction for the packs found on the listing is the
    layered fallback cut after its second layer: the state blob first, the
    [slug=] anchors if the blob yields nothing, and the images never. The
    extraction for the hard-coded packs never reads the blob: it takes the
    [slug=] anchors if there is any, else the elements carrying a slug
    attribute if there is any, else the images. *)
Theorem icon_slug_extraction_layers (d : IndexJs.Document) :
  IndexJs.extractIconSlugs d
    = Extraction.layered_fallback (Extraction.with_images [] d)
  ∧ (∀ imgs, IndexJs.extractIconSlugs (Extraction.with_images imgs d)
             = IndexJs.extractIconSlugs d)
  ∧ IndexJs.extractIconSlugs_hardcoded d
    = match IndexJs.createLinks d with
      | _ :: _ => Extraction.anchor_slugs d
      | [] =>
          match IndexJs.iconCards d with
          | _ :: _ => Extraction.card_slugs d
          | [] => Extraction.image_slugs d
          end
      end
  ∧ (∀ ss, IndexJs.extractIconSlugs_hardcoded (Extraction.with_scripts ss d)
           = IndexJs.extractIconSlugs_hardcoded d).
Proof.
  split_and!.
  - unfold IndexJs.extractIconSlugs, Extraction.layered_fallback,
      Extraction.blob_slugs, Extraction.anchor_slugs, Extraction.image_slugs.
    simpl. destruct (IndexJs.nuxt_iconData (IndexJs.scripts d)); simpl; [|done].
    unfold IndexJs.createLinks. simpl.
    by destruct (IndexJs.slugs_of_links _).
  - reflexivity.
  - unfold IndexJs.extractIconSlugs_hardcoded, Extraction.anchor_slugs,
      Extraction.card_slugs, Extraction.image_slugs.
    destruct (IndexJs.createLinks d); simpl; [|done].
    by destruct (IndexJs.iconCards d).
  - reflexivity.
Qed.

(** C8 fails on both extractions: with an image as the only carrier of a
    slug the first returns nothing where the layered fallback finds [chair],
    and with a blob and a create link the second takes the link where the
    layered fallback takes the blob. *)
Lemma icon_slug_extraction_is_not_the_layered_fallback :
  IndexJs.extractIconSlugs Scenario.doc_image_only = []
  ∧ Extraction.layered_fallback Scenario.doc_image_only = ["chair"]
  ∧ IndexJs.extractIconSlugs Scenario.doc_image_only
    ≠ Extraction.layered_fallback Scenario.doc_image_only
  ∧ IndexJs.extractIconSlugs_hardcoded Scenario.doc_blob_and_link = ["y"]
  ∧ Extraction.layered_fallback Scenario.doc_blob_and_link = ["x"]
  ∧ IndexJs.extractIconSlugs_hardcoded Scenario.doc_blob_and_link
    ≠ Extraction.layered_fallback Scenario.doc_blob_and_link.
Proof. vm_compute. split_and!; try reflexivity; discriminate. Qed.

(** ** Catalog pagination *)

Lemma indexOf_first_occurrence (pre a : list string) (v : string) :
  Nat.eqb (JS.indexOf (pre ++ v :: a) v) (length pre)
  = negb (JS.array_includes pre v).
Proof.
  unfold JS.array_includes. induction pre as [|x pre IH]; simpl.
  - by rewrite String.eqb_refl.
  - rewrite (String.eqb_sym v x). destruct (String.eqb x v); simpl; [done|].
    exact IH.
Qed.

Lemma filter_first_go_fold (a pre acc : list string) :
  (∀ x, In x pre ↔ In x acc) →
  acc ++ JS.filter_first_go (pre ++ a) (length pre) a
  = fold_left JS.push_unique a acc.
Proof.
  revert pre acc. induction a as [|v a IH]; intros pre acc Hsame; simpl.
  - by rewrite app_nil_r.
  - rewrite indexOf_first_occurrence. unfold JS.push_unique at 2.
    assert (JS.array_includes pre v = JS.array_includes acc v) as Hinc.
    { apply eq_true_iff_eq. rewrite !array_includes_In. apply Hsame. }
    rewrite Hinc.
    replace (pre ++ v :: a) with ((pre ++ [v]) ++ a) by by rewrite <- app_assoc.
    replace (S (length pre)) with (length (pre ++ [v]))
      by (rewrite length_app; simpl; lia).
    destruct (JS.array_includes acc v) eqn:Hv; simpl.
    + apply IH. intros x. rewrite in_app_iff, Hsame. simpl.
      apply array_includes_In in Hv. intuition congruence.
    + rewrite <- (IH (pre ++ [v]) (acc ++ [v])).
      * exact (List.app_assoc acc [v] _).
      * intros x. rewrite !in_app_iff, Hsame. reflexivity.
Qed.

Lemma filter_first_dedup (l : list string) : JS.filter_first l = Spec.dedup l.
Proof.
  unfold JS.filter_first, Spec.dedup.
  by rewrite <- (filter_first_go_fold l [] []).
Qed.

Lemma fold_push_unique_absorb (l acc : list string) :
  (∀ x, In x l → In x acc) → fold_left JS.push_unique l acc = acc.
Proof.
  revert acc. induction l as [|v l IH]; intros acc Hin; simpl; [done|].
  unfold JS.push_unique at 2.
  assert (JS.array_includes acc v = true) as ->
    by (apply array_includes_In, Hin; by left).
  apply IH. intros x Hx. apply Hin. by right.
Qed.

Lemma fold_push_unique_push (acc0 acc : list string) (v : string) :
  (∀ x, In x acc0 → In x acc) →
  fold_left JS.push_unique (JS.push_unique acc0 v) acc = JS.push_unique acc v.
Proof.
  intros Hsub. unfold JS.push_unique at 2.
  destruct (JS.array_includes acc0 v) eqn:Hv0.
  - rewrite (fold_push_unique_absorb acc0 acc Hsub).
    unfold JS.push_unique.
    assert (JS.array_includes acc v = true) as ->; [|done].
    by apply array_includes_In, Hsub, array_includes_In.
  - by rewrite fold_left_app, (fold_push_unique_absorb acc0 acc Hsub).
Qed.

Lemma fold_push_unique_twice (l acc0 acc : list string) :
  (∀ x, In x acc0 → In x acc) →
  fold_left JS.push_unique (fold_left JS.push_unique l acc0) acc
  = fold_left JS.push_unique l acc.
Proof.
  revert acc0 acc. induction l as [|v l IH]; intros acc0 acc Hsub; simpl.
  - by apply fold_push_unique_absorb.
  - assert (∀ x, In x (JS.push_unique acc0 v) → In x (JS.push_unique acc v))
      as Hsub'.
    { intros x. rewrite !push_unique_In. intros [Hx | ->]; [left; by apply Hsub|].
      by right. }
    rewrite <- (IH (JS.push_unique acc0 v) (JS.push_unique acc v) Hsub').
    destruct (fold_push_unique_prefix l (JS.push_unique acc0 v)) as (more & ->).
    rewrite !fold_left_app.
    rewrite (fold_push_unique_push acc0 acc v Hsub).
    by rewrite (fold_push_unique_absorb _ (JS.push_unique acc v) Hsub').
Qed.

Lemma fold_push_unique_dedup (l acc : list string) :
  fold_left JS.push_unique (Spec.dedup l) acc = fold_left JS.push_unique l acc.
Proof. apply fold_push_unique_twice. intros x []. Qed.

(** The listener of [find-items.js] emits no event. *)
Lemma find_items_deliver_all_trace (env : Env) (rs : list Response)
    (w : World FindItems.Closure (gmap nat string)) :
  trace (deliver_all env rs w) = trace w.
Proof.
  apply (deliver_all_related env (λ w1 w2, trace w2 = trace w1)).
  - done.
  - intros w1 w2 w3 H12 H23. by rewrite H23.
  - intros h r w1 _. simpl. unfold FindItems.handleResponse. run.
    cases; reflexivity.
Qed.

Section Pagination.
Variable env : Env.
Variable dom : Dom FindItems.Document.
Variable getUrls : FindItems.Document → list string.

Lemma later_urls_S (c0 n : nat) :
  Crawl.later_urls dom c0 getUrls (S n)
  = getUrls (Crawl.page dom c0 1) ++ Crawl.later_urls dom (c0 + 2) getUrls n.
Proof.
  unfold Crawl.later_urls. simpl. f_equal. f_equal.
  rewrite <- seq_shift, map_map. apply map_ext. intros k.
  unfold Crawl.page. f_equal. f_equal. lia.
Qed.

Lemma paginate_stops (n : nat) :
  ∀ fuel all (w : World FindItems.Closure (gmap nat string)),
    n < fuel →
    (∀ k, k < n → Crawl.continues env dom (clock w) k = true) →
    Crawl.continues env dom (clock w) n = false →
    (FindItems.paginate env dom fuel getUrls all w).1
    = Normal (Some (fold_left JS.push_unique (Crawl.later_urls dom (clock w) getUrls n) all)).
Proof.
  induction n as [|n IH]; intros fuel all w Hfuel Hgo Hstop.
  - destruct fuel as [|fuel]; [lia|]. clear Hgo.
    unfold Crawl.continues, Crawl.page in Hstop.
    replace (clock w + 2 * 0) with (clock w) in Hstop by lia.
    simpl. unfold FindItems.click_next. run.
    destruct (FindItems.hasNextPage (dom (clock w))); simpl; [|done].
    destruct (FindItems.nextPageClicked (dom (clock w))); simpl; [|done].
    simpl in Hstop. unfold clock in *. simpl. rewrite length_app. simpl.
    destruct (nav_wait env _) as [rs settled]. simpl in Hstop. by subst.
  - destruct fuel as [|fuel]; [lia|].
    pose proof (Hgo 0 ltac:(lia)) as Hfirst.
    unfold Crawl.continues, Crawl.page in Hfirst.
    replace (clock w + 2 * 0) with (clock w) in Hfirst by lia.
    apply andb_prop in Hfirst as [Hfirst Hnav].
    apply andb_prop in Hfirst as [Hnext Hclick].
    rewrite later_urls_S.
    simpl. unfold FindItems.click_next. run.
    rewrite Hnext. simpl. rewrite Hclick. simpl.
    unfold clock in *. simpl. rewrite length_app. simpl.
    destruct (nav_wait env _) as [rs settled]. simpl in Hnav. subst settled.
    simpl. rewrite find_items_deliver_all_trace. simpl.
    rewrite !length_app. simpl.
    replace (length (trace w) + 1 + 1) with (length (trace w) + 2) by lia.
    rewrite fold_left_app.
    unfold Crawl.page at 1.
    replace (length (trace w) + 2 * 1) with (length (trace w) + 2) by lia.
    match goal with
    | |- (FindItems.paginate _ _ _ _ ?a ?w').1 = _ =>
        specialize (IH fuel a w')
    end.
    unfold clock in IH. rewrite find_items_deliver_all_trace in IH.
    simpl in IH. rewrite !length_app in IH. simpl in IH.
    replace (length (trace w) + 1 + 1) with (length (trace w) + 2) in IH by lia.
    apply IH; [lia | |].
    + intros k Hk. specialize (Hgo (S k) ltac:(lia)).
      unfold Crawl.continues, Crawl.page in *.
      replace (length (trace w) + 2 + 2 * k)
        with (length (trace w) + 2 * S k) by lia.
      exact Hgo.
    + unfold Crawl.continues, Crawl.page in *.
      replace (length (trace w) + 2 + 2 * n)
        with (length (trace w) + 2 * S n) by lia.
      exact Hstop.
Qed.

Lemma paginate_goes_on (fuel : nat) :
  ∀ all (w : World FindItems.Closure (gmap nat string)),
    (∀ k, k < fuel → Crawl.continues env dom (clock w) k = true) →
    (FindItems.paginate env dom fuel getUrls all w).1 = Normal None.
Proof.
  induction fuel as [|fuel IH]; intros all w Hgo; [reflexivity|].
  pose proof (Hgo 0 ltac:(lia)) as Hfirst.
  unfold Crawl.continues, Crawl.page in Hfirst.
  replace (clock w + 2 * 0) with (clock w) in Hfirst by lia.
  apply andb_prop in Hfirst as [Hfirst Hnav].
  apply andb_prop in Hfirst as [Hnext Hclick].
  simpl. unfold FindItems.click_next. run.
  rewrite Hnext. simpl. rewrite Hclick. simpl.
  unfold clock in *. simpl. rewrite length_app. simpl.
  destruct (nav_wait env _) as [rs settled]. simpl in Hnav. subst settled.
  simpl. apply IH. intros k Hk.
  rewrite find_items_deliver_all_trace. simpl. rewrite !length_app. simpl.
  specialize (Hgo (S k) ltac:(lia)).
  unfold Crawl.continues, Crawl.page in *.
  replace (length (trace w) + 1 + 1 + 2 * k)
    with (length (trace w) + 2 * S k) by lia.
  replace (length (trace w) + 1 + 1 + 2 * k + 1)
    with (length (trace w) + 2 * S k + 1) by lia.
  exact Hgo.
Qed.

End Pagination.

Lemma fold_push_unique_concat_dedup {A : Type} (f : A → list string)
    (ks : list A) (acc : list string) :
  fold_left JS.push_unique (concat (List.map (λ k, Spec.dedup (f k)) ks)) acc
  = fold_left JS.push_unique (concat (List.map f ks)) acc.
Proof.
  revert acc. induction ks as [|k ks IH]; intros acc; simpl; [done|].
  by rewrite !fold_left_app, fold_push_unique_dedup, IH.
Qed.

Lemma getPackUrls_dedup (pathname : string → option string)
    (d : FindItems.Document) :
  FindItems.getPackUrls pathname d = Spec.dedup (Crawl.pack_paths pathname d).
Proof. apply filter_first_dedup. Qed.

Lemma crawl_refs_unfold (dom : Dom FindItems.Document)
    (pathname : string → option string) (c0 n : nat) :
  fold_left JS.push_unique
    (Crawl.later_urls dom c0 (FindItems.getPackUrls pathname) n)
    (FindItems.getPackUrls pathname (dom c0))
  = Spec.dedup
      (concat (List.map (Crawl.pack_paths pathname) (Crawl.pages_upto dom c0 n))).
Proof.
  unfold Crawl.later_urls, Crawl.pages_upto.
  rewrite (map_ext _ (λ k, Spec.dedup (Crawl.pack_paths pathname (Crawl.page dom c0 k))))
    by (intros; apply getPackUrls_dedup).
  rewrite (fold_push_unique_concat_dedup
             (λ k, Crawl.pack_paths pathname (Crawl.page dom c0 k))).
  rewrite getPackUrls_dedup.
  change (seq 0 (S n)) with (0 :: seq 1 n). simpl.
  unfold Spec.dedup at 2. rewrite fold_left_app. fold (Spec.dedup).
  unfold Crawl.page at 3. replace (c0 + 2 * 0) with c0 by lia.
  by rewrite map_map.
Qed.

(** C9: once the start page has loaded, the crawl ends at the first turn of
    its loop at which no enabled next control is found, or clicking it fails,
    or the wait for the navigation fails or times out, and at no earlier one.
    It then returns the pack paths of all the pages seen up to that turn,
    each once, in the order of discovery. As long as no turn is of that kind
    the loop does not return. *)
Theorem catalog_pagination (env : Env) (dom : Dom FindItems.Document)
    (pathname : string → option string)
    (w : World FindItems.Closure (gmap nat string)) :
  (goto_load env (clock w) Crawl.LISTING).2 = true →
  let c0 := S (clock w) in
  (∀ n fuel,
     n < fuel →
     (∀ k, k < n → Crawl.continues env dom c0 k = true) →
     Crawl.continues env dom c0 n = false →
     let refs :=
       Spec.dedup (concat (List.map (Crawl.pack_paths pathname)
                             (Crawl.pages_upto dom c0 n))) in
     (FindItems.crawlPacks env dom pathname fuel w).1 = Normal (Some refs)
     ∧ List.NoDup refs
     ∧ ∀ k p, k ≤ n → In p (Crawl.pack_paths pathname (Crawl.page dom c0 k)) →
              In p refs)
  ∧ (∀ fuel,
       (∀ k, k < fuel → Crawl.continues env dom c0 k = true) →
       (FindItems.crawlPacks env dom pathname fuel w).1 = Normal None).
Proof.
  intros Hload c0.
  assert (∀ fuel,
    (FindItems.crawlPacks env dom pathname fuel w).1
    = (FindItems.paginate env dom fuel (FindItems.getPackUrls pathname)
         (FindItems.getPackUrls pathname (dom c0))
         (deliver_all env (goto_load env (clock w) Crawl.LISTING).1
            (emit (EvGoto Crawl.LISTING) w))).1
    ∧ clock (deliver_all env (goto_load env (clock w) Crawl.LISTING).1
               (emit (EvGoto Crawl.LISTING) w)) = c0) as Hcrawl.
  { intros fuel. unfold FindItems.crawlPacks. run.
    change "https://pixcap.com/3d-icon-packs" with Crawl.LISTING.
    destruct (goto_load env (clock w) Crawl.LISTING) as [rs settled].
    simpl in Hload. subst settled. simpl.
    unfold clock. rewrite find_items_deliver_all_trace. simpl.
    rewrite length_app. simpl. subst c0. unfold clock.
    rewrite Nat.add_1_r. done. }
  split.
  - intros n fuel Hfuel Hgo Hstop refs.
    destruct (Hcrawl fuel) as [-> Hclock].
    split_and!.
    + rewrite (paginate_stops env dom _ n); rewrite ?Hclock; try done.
      f_equal. f_equal. apply crawl_refs_unfold.
    + apply dedup_NoDup.
    + intros k p Hk Hp. subst refs. apply dedup_In, in_concat.
      exists (Crawl.pack_paths pathname (Crawl.page dom c0 k)). split; [|done].
      apply in_map, in_map, in_seq. lia.
  - intros fuel Hgo. destruct (Hcrawl fuel) as [-> Hclock].
    apply paginate_goes_on. by rewrite Hclock.
Qed.

Lemma catalog_pagination_witness :
  (FindItems.crawlPacks Scenario.env_resolves Scenario.dom_catalog
     Scenario.pathname 3 (FindItems.start ∅)).1
  = Normal (Some ["/pack/a"; "/pack/b"; "/pack/c"; "/pack/d"; "/pack/e";
                  "/pack/f"]).
Proof.
  refine (proj1 (proj1 (catalog_pagination Scenario.env_resolves
                          Scenario.dom_catalog Scenario.pathname
                          (FindItems.start ∅) eq_refl) 2 3 _ _ _)).
  - lia.
  - intros [|[|k]] Hk; [reflexivity | reflexivity | lia].
  - reflexivity.
Defined.

(** ** The content type filter of [find-items.js] *)

Lemma handleResponse_drops_other_types (c : FindItems.Closure) (r : Response)
    (w : World FindItems.Closure (gmap nat string)) :
  (∀ p, r_body r ≠ BodyObject p (Some FindItems.GLB_CONTENT_TYPE)) →
  FindItems.handleResponse c r w = (Normal tt, w).
Proof.
  intros Hother. unfold FindItems.handleResponse. run.
  destruct (JS.includes _ _); [|done].
  destruct (r_body r) as [| |p ct] eqn:Hbody; simpl; try done.
  destruct (bool_decide_reflect (ct = Some FindItems.GLB_CONTENT_TYPE)) as [->|].
  - by destruct (Hother p).
  - by rewrite andb_false_r.
Qed.

Lemma deliver_all_drops_other_types (env : Env) (rs : list Response)
    (w : World FindItems.Closure (gmap nat string)) :
  (∀ r, In r rs → ∀ p, r_body r ≠ BodyObject p (Some FindItems.GLB_CONTENT_TYPE)) →
  deliver_all env rs w = w.
Proof.
  intros Hother.
  apply (deliver_all_related env (λ w1 w2, w2 = w1)); [done | congruence |].
  intros h r w1 Hr. simpl. unfold exec.
  by rewrite handleResponse_drops_other_types by by apply Hother.
Qed.

(** C10: the listener of [find-items.js] takes a signed URL only from a
    response whose [contentType] is exactly [model/gltf-binary]. A response
    with a signed URL and any other content type leaves the run as it was,
    and an item that only gets such responses ends as a failed download:
    [downloadGlbFile] returns [false] and writes nothing. *)
Theorem glb_content_type_is_required (env : Env) :
  (∀ c r p ct (w : World FindItems.Closure (gmap nat string)),
     r_body r = BodyObject p ct →
     ct ≠ Some FindItems.GLB_CONTENT_TYPE →
     FindItems.handleResponse c r w = (Normal tt, w))
  ∧ (∀ c r u (w : World FindItems.Closure (gmap nat string)),
       JS.includes (r_url r) PRESIGNED_ENDPOINT = true →
       r_body r = BodyObject (Some u) (Some FindItems.GLB_CONTENT_TYPE) →
       u ≠ "" →
       mem (exec (FindItems.handleResponse c r) w) !! FindItems.cell c = Some u)
  ∧ (∀ c r (w : World FindItems.Closure (gmap nat string)),
       exec (FindItems.handleResponse c r) w ≠ w →
       JS.includes (r_url r) PRESIGNED_ENDPOINT = true
       ∧ ∃ u, u ≠ ""
              ∧ r_body r = BodyObject (Some u) (Some FindItems.GLB_CONTENT_TYPE))
  ∧ (∀ item (w : World FindItems.Closure (gmap nat string)),
       (∀ t url r, In r (goto_load env t url).1 →
                   ∀ p, r_body r ≠ BodyObject p (Some FindItems.GLB_CONTENT_TYPE)) →
       (∀ t r, In r (nav_wait env t).1 →
               ∀ p, r_body r ≠ BodyObject p (Some FindItems.GLB_CONTENT_TYPE)) →
       (∀ t r, In r (idle_wait env t) →
               ∀ p, r_body r ≠ BodyObject p (Some FindItems.GLB_CONTENT_TYPE)) →
       (FindItems.downloadGlbFile env item w).1 = Normal false
       ∧ disk (exec (FindItems.downloadGlbFile env item) w) = disk w).
Proof.
  split_and!.
  - intros c r p ct w Hbody Hct. apply handleResponse_drops_other_types.
    intros p'. rewrite Hbody. congruence.
  - intros c r u w Hurl Hbody Hu. unfold FindItems.handleResponse. run.
    rewrite Hurl, Hbody. apply String.eqb_neq in Hu. run. rewrite Hu. simpl.
    apply lookup_insert_eq.
  - intros c r w Hchanged. unfold FindItems.handleResponse in Hchanged. run.
    destruct (JS.includes (r_url r) PRESIGNED_ENDPOINT); [|done].
    split; [done|].
    destruct (r_body r) as [| |p ct] eqn:Hbody; run; try done.
    destruct p as [u|]; simpl in *; [|done].
    destruct (String.eqb_spec u ""); simpl in *; [done|].
    destruct (bool_decide_reflect (ct = Some FindItems.GLB_CONTENT_TYPE)) as [->|];
      [|done].
    by exists u.
  - intros item w Hgoto Hnav Hidle. unfold FindItems.downloadGlbFile. run.
    match goal with
    | |- context [goto_load env ?t ?u] =>
        pose proof (Hgoto t u) as Hrs1;
        destruct (goto_load env t u) as [rs1 settled1]
    end.
    simpl in Hrs1. rewrite (deliver_all_drops_other_types env rs1 _ Hrs1).
    destruct settled1; simpl; [|done].
    match goal with
    | |- context [nav_wait env ?t] =>
        pose proof (Hnav t) as Hrs2;
        destruct (nav_wait env t) as [rs2 settled2]
    end.
    simpl in Hrs2. rewrite (deliver_all_drops_other_types env rs2 _ Hrs2).
    destruct settled2; simpl; [|done].
    rewrite deliver_all_drops_other_types by apply Hidle.
    simpl. by rewrite lookup_delete_eq.
Qed.

Lemma glb_content_type_is_required_witness :
  (FindItems.downloadGlbFile Scenario.env_octet Scenario.item_foo
     (FindItems.start ∅)).1 = Normal false
  ∧ disk (exec (FindItems.downloadGlbFile Scenario.env_octet Scenario.item_foo)
            (FindItems.start ∅)) = ∅.
Proof.
  destruct (glb_content_type_is_required Scenario.env_octet)
    as (_ & _ & _ & Hitem).
  apply (Hitem Scenario.item_foo (FindItems.start ∅)).
  - intros t url r Hr p. simpl in Hr.
    destruct (String.eqb url (create_url "foo")); simpl in Hr; [|done].
    destruct Hr as [<-|[]]. discriminate.
  - intros t r [].
  - intros t r [].
Defined.

(** * Further properties of the scripts *)

(** ** Identifiers and slugs read off URLs *)

(** X1: The identifier taken from the URL of a response is what stands between
    the last slash of the URL and the first question mark after it; a slash
    inside the query string moves the identifier into the query. *)
Theorem uuid_is_after_last_slash (s t : string) :
  Text.has_char "/" t = false →
  uuid_of_url (s +:+ "/" +:+ t) = Regex.take_while (Regex.not_char "?") t.
Proof.
  intros Ht. unfold uuid_of_url, JS.pop, JS.split, JS.first.
  change (s +:+ "/" +:+ t) with (s +:+ String "/" t).
  rewrite split_go_last by done. apply split_go_first.
Qed.

Lemma uuid_is_after_last_slash_witness :
  uuid_of_url ("https://pixcap.com/x?next=" +:+ "/" +:+ "y?z") = "y".
Proof.
  apply (uuid_is_after_last_slash "https://pixcap.com/x?next=" "y?z").
  reflexivity.
Defined.

(** X2: Round trip of the secondary resolution: the endpoint URL built for an
    identifier without slash or question mark gives that identifier back
    when a listener reads it off the response. *)
Theorem uuid_of_presigned_api (uuid : string) :
  Text.has_char "/" uuid = false →
  Text.has_char "?" uuid = false →
  uuid_of_url (Direct.presigned_api uuid) = uuid.
Proof.
  intros Hslash Hquery.
  change (Direct.presigned_api uuid)
    with ("https://pixcap.com/api/v1/assetmanager/presigned/loadProject"
          +:+ "/" +:+ (uuid +:+ "?lang=en")).
  unfold uuid_of_url, JS.pop, JS.split, JS.first.
  rewrite (split_go_last "/" _ (uuid +:+ "?lang=en"))
    by by rewrite has_char_app, Hslash.
  rewrite split_go_first.
  apply take_while_stops; [by apply no_char_all | reflexivity].
Qed.

Lemma uuid_of_presigned_api_witness :
  uuid_of_url (Direct.presigned_api "0f8e-42") = "0f8e-42".
Proof. apply uuid_of_presigned_api; reflexivity. Defined.

Lemma substring_all (s : string) (n : nat) :
  String.length s ≤ n → String.substring 0 n s = s.
Proof.
  revert n. induction s as [|c s IH]; intros [|n] Hn; simpl in *;
    try reflexivity; try lia.
  rewrite IH by lia. reflexivity.
Qed.

(** The pattern that looks for the identifier in the address after the
    redirect also matches the create URL the script navigated to: when no
    redirect has happened it finds the "identifier" [c], the first letter of
    [create], whatever the slug. *)
Lemma design_uuid_of_create_url (slug : string) :
  Regex.design_uuid (create_url slug) = Some "c".
Proof. reflexivity. Qed.

Lemma design_uuid_skip (c : ascii) (s : string) :
  String.prefix "/design/" (Regex.lower_string (String c s)) = false →
  Regex.design_uuid (String c s) = Regex.design_uuid s.
Proof. intros Hno. simpl in *. by rewrite Hno. Qed.

Lemma design_uuid_here (c : ascii) (s cap : string) :
  String.prefix "/design/" (Regex.lower_string (String c s)) = true →
  Regex.take_while Regex.hex_dash_ci
    (String.substring 8 (String.length (String c s)) (String c s)) = cap →
  cap ≠ "" →
  Regex.design_uuid (String c s) = Some cap.
Proof.
  intros Hyes Hcap Hne. simpl in *. rewrite Hyes, Hcap.
  by destruct cap.
Qed.

(** X3: On the address of a design the pattern gives the identifier back, as
    long as the identifier is not empty and made of hexadecimal digits and
    dashes. *)
Theorem design_uuid_of_design_url (uuid : string) :
  uuid ≠ "" →
  Text.all_chars Regex.hex_dash_ci uuid = true →
  Regex.design_uuid ("https://pixcap.com/design/" +:+ uuid) = Some uuid.
Proof.
  intros Hne Hhex. destruct uuid as [|c uuid]; [done|].
  cbv [String.append].
  do 18 (rewrite design_uuid_skip by reflexivity).
  apply design_uuid_here; [reflexivity | | done].
  change (Regex.take_while Regex.hex_dash_ci
            (String.substring 0 (8 + String.length (String c uuid))
               (String c uuid)) = String c uuid).
  rewrite substring_all by lia. by apply take_while_all.
Qed.

Lemma design_uuid_of_design_url_witness :
  Regex.design_uuid ("https://pixcap.com/design/" +:+ "0F8e-42a")
  = Some "0F8e-42a".
Proof. apply design_uuid_of_design_url; [discriminate | reflexivity]. Defined.

(** ** The direct downloader after the wait *)



(** ** Slugs read off links *)

Lemma slug_param_unfold (c : ascii) (s : string) :
  Regex.slug_param (String c s)
  = if String.prefix "slug=" (String c s)
    then match Regex.take_while (Regex.not_char "&")
                 (String.substring 5 (String.length (String c s)) (String c s))
         with
         | EmptyString => Regex.slug_param s
         | cap => Some cap
         end
    else Regex.slug_param s.
Proof. reflexivity. Qed.

Lemma slug_param_skip (c : ascii) (s : string) :
  String.prefix "slug=" (String c s) = false →
  Regex.slug_param (String c s) = Regex.slug_param s.
Proof. intros Hno. simpl in *. by rewrite Hno. Qed.

Lemma slug_param_here (c : ascii) (s cap : string) :
  String.prefix "slug=" (String c s) = true →
  Regex.take_while (Regex.not_char "&")
    (String.substring 5 (String.length (String c s)) (String c s)) = cap →
  cap ≠ "" →
  Regex.slug_param (String c s) = Some cap.
Proof.
  intros Hyes Hcap Hne. simpl in *. rewrite Hyes, Hcap. by destruct cap.
Qed.

Lemma slug_param_of_link (slug rest : string) :
  slug ≠ "" →
  Text.has_char "&" slug = false →
  Regex.take_while (Regex.not_char "&") rest = "" →
  Regex.slug_param ("/design/create?slug=" +:+ slug +:+ rest) = Some slug.
Proof.
  intros Hne Hamp Hrest. destruct slug as [|c slug]; [done|].
  cbv [String.append]. fold String.append.
  do 15 (rewrite slug_param_skip by reflexivity).
  apply slug_param_here; [reflexivity | | done].
  change (Regex.take_while (Regex.not_char "&")
            (String.substring 0 (5 + String.length (String c (slug +:+ rest)))
               (String c (slug +:+ rest))) = String c slug).
  rewrite substring_all by lia.
  apply (take_while_stops _ (String c slug) rest); [|done].
  by apply no_char_all.
Qed.

(** X5: A link to the editor gives its slug back, and only its slug: further
    query parameters are cut off, so the navigation that follows goes to the
    link itself on the site, without them. *)
Theorem slug_of_create_link (slug query : string) :
  slug ≠ "" →
  Text.has_char "&" slug = false →
  Regex.slug_param ("/design/create?slug=" +:+ slug) = Some slug
  ∧ Regex.slug_param ("/design/create?slug=" +:+ slug +:+ "&" +:+ query)
    = Some slug
  ∧ create_url slug = "https://pixcap.com" +:+ "/design/create?slug=" +:+ slug.
Proof.
  intros Hne Hamp. split_and!.
  - rewrite <- (string_app_nil_r slug) at 1. by apply slug_param_of_link.
  - by apply slug_param_of_link.
  - reflexivity.
Qed.

Lemma slug_of_create_link_witness :
  Regex.slug_param ("/design/create?slug=" +:+ "chair-3d" +:+ "&" +:+ "ref=grid")
  = Some "chair-3d".
Proof.
  apply (slug_of_create_link "chair-3d" "ref=grid"); [discriminate | reflexivity].
Defined.

(** X6: Whatever slug is read off a link is not empty and holds no [&]. *)
Theorem slug_param_is_clean (href slug : string) :
  Regex.slug_param href = Some slug →
  slug ≠ "" ∧ Text.has_char "&" slug = false.
Proof.
  induction href as [|c href IH]; [done|].
  rewrite slug_param_unfold.
  destruct (String.prefix "slug=" (String c href)); [|exact IH].
  destruct (Regex.take_while _ _) as [|x cap] eqn:Hcap; [exact IH|].
  intros [= <-]. split; [done|]. rewrite <- Hcap. apply take_while_not_char.
Qed.

Lemma slug_param_is_clean_witness :
  "y" ≠ "" ∧ Text.has_char "&" "y" = false.
Proof. apply (slug_param_is_clean "?a=1&slug=y&b=2"). reflexivity. Defined.

(** ** The dedup check and what was stored before *)

(** X7: The dedup check matches by prefix: the file of an icon whose slug is
    [slug], two underscores and more hides the icon [slug] itself, which is
    then skipped without ever having been downloaded. *)
Theorem dedup_confuses_slugs_extending_by_underscores (env : Env)
    (packDir slug more uuid : string) (c : Content)
    (w : World IndexJs.Closure (gmap string string)) :
  disk w !! (packDir, glb_filename (slug +:+ "__" +:+ more) uuid) = Some c →
  IndexJs.processIcon env packDir slug w = (Normal tt, w).
Proof.
  intros Hd. unfold IndexJs.processIcon, fs_readdirSync. run.
  rewrite (fileExists_intro _ slug (glb_filename (slug +:+ "__" +:+ more) uuid));
    [reflexivity | by eapply readdir_lists_file | |].
  - unfold glb_filename.
    rewrite <- !string_app_assoc, (string_app_assoc slug "__").
    apply startsWith_app.
  - apply glb_filename_endsWith.
Qed.

Lemma dedup_confuses_slugs_extending_by_underscores_witness :
  IndexJs.processIcon Scenario.env_resolves "glb/pack" "foo"
    (IndexJs.start {[ ("glb/pack", "foo__bar__abc123.glb") := Binary "GLB" ]})
  = (Normal tt,
     IndexJs.start {[ ("glb/pack", "foo__bar__abc123.glb") := Binary "GLB" ]}).
Proof.
  apply (dedup_confuses_slugs_extending_by_underscores _ _ "foo" "bar" "abc123"
           (Binary "GLB")).
  vm_compute. reflexivity.
Defined.

(** ** Relations kept by whole programs *)

Lemma try_catch_ret_tt {S : Type} (body : Prog S unit) (w : S) :
  (try_catch body (ret tt) w).1 = Normal tt.
Proof. unfold try_catch, ret. by destruct (body w) as [[[]|] w']. Qed.

Lemma for_of_never_throws {S A : Type} (xs : list A) (body : A → Prog S unit) :
  (∀ x w, (body x w).1 = Normal tt) →
  ∀ w, (for_of xs body w).1 = Normal tt.
Proof.
  intros Hbody. induction xs as [|x xs IH]; intros w; simpl; [done|].
  unfold bind. specialize (Hbody x w).
  destruct (body x w) as [[[]|] w']; simpl in *; [apply IH | done].
Qed.

Section Related.
Context {S : Type}.
Variable R : S → S → Prop.
Hypothesis R_refl : ∀ w, R w w.
Hypothesis R_trans : ∀ w1 w2 w3, R w1 w2 → R w2 w3 → R w1 w3.

Lemma bind_related {A B : Type} (c : Prog S A) (k : A → Prog S B) :
  (∀ w, R w (exec c w)) → (∀ a w, R w (exec (k a) w)) →
  ∀ w, R w (exec (bind c k) w).
Proof.
  intros Hc Hk w. unfold exec, bind in *. specialize (Hc w).
  destruct (c w) as [[a|] w']; simpl in *; [|done].
  eapply R_trans; [exact Hc | apply Hk].
Qed.

Lemma try_catch_related {A : Type} (body handler : Prog S A) :
  (∀ w, R w (exec body w)) → (∀ w, R w (exec handler w)) →
  ∀ w, R w (exec (try_catch body handler) w).
Proof.
  intros Hb Hh w. unfold exec, try_catch in *. specialize (Hb w).
  destruct (body w) as [[a|] w']; simpl in *; [done|].
  eapply R_trans; [exact Hb | apply Hh].
Qed.

Lemma for_of_related {A : Type} (xs : list A) (body : A → Prog S unit) :
  (∀ x w, R w (exec (body x) w)) →
  ∀ w, R w (exec (for_of xs body) w).
Proof.
  intros Hbody. induction xs as [|x xs IH]; intros w; simpl; [apply R_refl|].
  apply bind_related; [apply Hbody | intros _; apply IH].
Qed.

Lemma ret_related {A : Type} (a : A) (w : S) : R w (exec (ret a) w).
Proof. apply R_refl. Qed.

Lemma gets_related {A : Type} (f : S → A) (w : S) : R w (exec (gets f) w).
Proof. apply R_refl. Qed.

End Related.

Section PageRelated.
Context {H M : Type} `{!Listener H M}.
Variable env : Env.
Variable R : World H M → World H M → Prop.
Hypothesis R_refl : ∀ w, R w w.
Hypothesis R_trans : ∀ w1 w2 w3, R w1 w2 → R w2 w3 → R w1 w3.
Hypothesis R_emit : ∀ e w, R w (emit e w).
Hypothesis R_listeners : ∀ ls n w, R w (set_listeners ls n w).
Hypothesis R_invoke : ∀ h r w, R w (invoke env h r w).

Lemma deliver_all_kept (rs : list Response) (w : World H M) :
  R w (deliver_all env rs w).
Proof. apply deliver_all_related; auto. Qed.

Lemma page_goto_related (url : string) (w : World H M) :
  R w (exec (page_goto env url) w).
Proof.
  unfold exec, page_goto. destruct (goto_load env _ _) as [rs settled]. simpl.
  eapply R_trans; [apply R_emit | apply deliver_all_kept].
Qed.

Lemma page_waitForNavigation_related (w : World H M) :
  R w (exec (page_waitForNavigation env) w).
Proof.
  unfold exec, page_waitForNavigation.
  destruct (nav_wait env _) as [rs settled]. simpl.
  eapply R_trans; [apply R_emit | apply deliver_all_kept].
Qed.

Lemma page_waitForTimeout_related (ms : N) (w : World H M) :
  R w (exec (page_waitForTimeout env ms) w).
Proof.
  unfold exec, page_waitForTimeout, act. simpl.
  eapply R_trans; [apply R_emit | apply deliver_all_kept].
Qed.

Lemma page_on_related (h : H) (w : World H M) : R w (exec (page_on h) w).
Proof.
  unfold exec, page_on. simpl.
  eapply R_trans; [apply R_listeners | apply R_emit].
Qed.

Lemma page_removeListener_related (id : nat) (w : World H M) :
  R w (exec (page_removeListener id) w).
Proof.
  unfold exec, page_removeListener, act. simpl.
  eapply R_trans; [apply R_listeners | apply R_emit].
Qed.

End PageRelated.

Section MorePageRelated.
Context {H M : Type}.
Variable env : Env.
Variable R : World H M → World H M → Prop.
Hypothesis R_emit : ∀ e w, R w (emit e w).

Lemma axios_related (url : string) (w : World H M) :
  R w (exec (axios env url) w).
Proof. unfold exec, axios. destruct (axios_get env _ _); apply R_emit. Qed.

End MorePageRelated.

Section FetchRelated.
Variable env : Env.

Lemma direct_evaluate_fetch_related
    (R : World Direct.Closure unit → World Direct.Closure unit → Prop)
    (url : string) (w : World Direct.Closure unit) :
  (∀ w, R w w) → (∀ w1 w2 w3, R w1 w2 → R w2 w3 → R w1 w3) →
  (∀ e w, R w (emit e w)) → (∀ h r w, R w (invoke env h r w)) →
  R w (exec (Direct.evaluate_fetch env url) w).
Proof.
  intros Rr Rt Re Ri. unfold exec, Direct.evaluate_fetch. simpl.
  eapply Rt; [apply Re|]. apply deliver_all_related; auto.
Qed.

Lemma item_page_evaluate_fetch_related
    (R : World ItemPage.Closure unit → World ItemPage.Closure unit → Prop)
    (url : string) (w : World ItemPage.Closure unit) :
  (∀ w, R w w) → (∀ w1 w2 w3, R w1 w2 → R w2 w3 → R w1 w3) →
  (∀ e w, R w (emit e w)) → (∀ h r w, R w (invoke env h r w)) →
  R w (exec (ItemPage.evaluate_fetch env url) w).
Proof.
  intros Rr Rt Re Ri. unfold exec, ItemPage.evaluate_fetch. simpl.
  eapply Rt; [apply Re|]. apply deliver_all_related; auto.
Qed.

End FetchRelated.

Lemma assign_mapping_state {S : Type} (env : Env) (mappings : Direct.Parsed)
    (slug uuid : string) (w : S) :
  exec (Direct.assign_mapping env mappings slug uuid) w = w.
Proof.
  unfold exec, Direct.assign_mapping.
  destruct mappings as [m|text|text]; [done | | done].
  by destruct (array_assign env text slug uuid).
Qed.

(** Chains the lemmas above through a program: [Rr], [Rt], [Re], [Rl] are
    the proofs that the relation is reflexive, transitive and kept by [emit]
    and [set_listeners], [Ri] that it is kept by the listeners, and [Rw],
    [Rm] that it is kept by writing a file and by a change of memory. *)
Ltac related env R Rr Rt Re Rl Ri Rw Rm :=
  repeat
    (intros; cbv beta;
     lazymatch goal with
     | |- _ (exec (try_catch _ _) _) => apply (try_catch_related R Rt)
     | |- _ (exec (bind _ _) _) => apply (bind_related R Rt)
     | |- _ (exec (for_of _ _) _) => apply (for_of_related R Rr Rt)
     | |- _ (exec (ret _) _) => apply Rr
     | |- _ (exec throw _) => apply Rr
     | |- _ (exec (gets _) _) => apply Rr
     | |- _ (exec (page_evaluate _ _) _) => apply Rr
     | |- _ (exec (fs_readFile _ _) _) => apply Rr
     | |- _ (exec (fs_readdirSync _) _) => apply Rr
     | |- _ (exec (page_goto _ _) _) =>
         apply (page_goto_related env R Rr Rt Re Ri)
     | |- _ (exec (page_waitForNavigation _) _) =>
         apply (page_waitForNavigation_related env R Rr Rt Re Ri)
     | |- _ (exec (page_waitForTimeout _ _) _) =>
         apply (page_waitForTimeout_related env R Rr Rt Re Ri)
     | |- _ (exec (page_on _) _) => apply (page_on_related R Rt Re Rl)
     | |- _ (exec (page_removeListener _) _) =>
         apply (page_removeListener_related R Rt Re Rl)
     | |- _ (exec (axios _ _) _) => apply (axios_related env R Re)
     | |- _ (exec (Direct.evaluate_fetch _ _) _) =>
         apply (direct_evaluate_fetch_related env R); [exact Rr | exact Rt | exact Re | exact Ri]
     | |- _ (exec (ItemPage.evaluate_fetch _ _) _) =>
         apply (item_page_evaluate_fetch_related env R); [exact Rr | exact Rt | exact Re | exact Ri]
     | |- _ (exec (fs_writeFile _ _ _ _) _) => apply Rw
     | |- _ (exec (Direct.assign_mapping _ _ _ _) _) =>
         rewrite assign_mapping_state; apply Rr
     | |- _ (exec (act _) _) => apply Rm
     | |- _ (exec (if ?b then _ else _) _) => destruct b
     | |- _ (exec (match ?x with _ => _ end) _) => destruct x
     | |- _ (exec (let _ := _ in _) _) => cbv zeta
     end).

Section KeepsFiles.
Context {H M : Type}.

Lemma files_refl (w : World H M) : Keeps.files w w.
Proof. by intros k. Qed.

Lemma files_trans (w1 w2 w3 : World H M) :
  Keeps.files w1 w2 → Keeps.files w2 w3 → Keeps.files w1 w3.
Proof. intros H12 H23 k Hk. by apply H23, H12. Qed.

Lemma files_emit (e : Event) (w : World H M) : Keeps.files w (emit e w).
Proof. by intros k. Qed.

Lemma files_listeners (ls : list (nat * H)) (n : nat) (w : World H M) :
  Keeps.files w (set_listeners ls n w).
Proof. by intros k. Qed.

Lemma files_write (env : Env) (dir name : string) (c : Content)
    (w : World H M) :
  Keeps.files w (exec (fs_writeFile env dir name c) w).
Proof.
  intros k Hk. unfold exec, fs_writeFile.
  destruct (fs_target env _ _ _) as [[d f]|]; simpl; [|done].
  destruct (decide ((d, f) = k)) as [<-|Hne].
  - rewrite lookup_insert_eq. by eexists.
  - by rewrite lookup_insert_ne.
Qed.

Lemma files_memory (f : World H M → M) (w : World H M) :
  Keeps.files w (exec (act (λ w0, set_mem (f w0) w0)) w).
Proof. by intros k. Qed.

End KeepsFiles.

Lemma index_js_handler_keeps_files (env : Env) (c : IndexJs.Closure)
    (r : Response) (w : World IndexJs.Closure (gmap string string)) :
  Keeps.files w (invoke env c r w).
Proof.
  simpl. unfold IndexJs.responseHandler, response_json. revert w.
  related env (@Keeps.files IndexJs.Closure (gmap string string))
    (@files_refl IndexJs.Closure (gmap string string))
    (@files_trans IndexJs.Closure (gmap string string))
    (@files_emit IndexJs.Closure (gmap string string))
    (@files_listeners IndexJs.Closure (gmap string string))
    (@files_refl IndexJs.Closure (gmap string string))
    (@files_write IndexJs.Closure (gmap string string))
    (@files_memory IndexJs.Closure (gmap string string)).
Qed.

Ltac files_related env H M Ri :=
  related env (@Keeps.files H M) (@files_refl H M) (@files_trans H M)
    (@files_emit H M) (@files_listeners H M) Ri (@files_write H M)
    (@files_memory H M).

Lemma direct_handler_keeps_files (env : Env) (c : Direct.Closure)
    (r : Response) (w : World Direct.Closure unit) :
  Keeps.files w (invoke env c r w).
Proof.
  simpl. unfold Direct.createResponseHandler, Direct.downloadGlbFile,
    response_json. revert w.
  files_related env Direct.Closure unit (@files_refl Direct.Closure unit).
Qed.

Lemma item_page_handler_keeps_files (env : Env) (c : ItemPage.Closure)
    (r : Response) (w : World ItemPage.Closure unit) :
  Keeps.files w (invoke env c r w).
Proof.
  simpl. unfold ItemPage.createResponseHandler, ItemPage.downloadGlbFile,
    response_json. revert w.
  files_related env ItemPage.Closure unit (@files_refl ItemPage.Closure unit).
Qed.

Lemma find_items_handler_keeps_files (env : Env) (c : FindItems.Closure)
    (r : Response) (w : World FindItems.Closure (gmap nat string)) :
  Keeps.files w (invoke env c r w).
Proof.
  simpl. unfold FindItems.handleResponse, response_json. revert w.
  files_related env FindItems.Closure (gmap nat string)
    (@files_refl FindItems.Closure (gmap nat string)).
Qed.

(** X8: No run removes a file: whatever the site answers, every file that is
    on disk before [main] of the pack scraper, of the direct downloader or of
    the item-page downloader, or before a [downloadGlbFile] of
    [find-items.js], is on disk after it. *)
Theorem scripts_never_remove_files (env : Env) :
  (∀ dom (w : World IndexJs.Closure (gmap string string)),
     Keeps.files w (exec (IndexJs.main env dom) w))
  ∧ (∀ dom slugs (w : World Direct.Closure unit),
       Keeps.files w (exec (Direct.main env dom slugs) w))
  ∧ (∀ dom urls (w : World ItemPage.Closure unit),
       Keeps.files w (exec (ItemPage.main env dom urls) w))
  ∧ (∀ item (w : World FindItems.Closure (gmap nat string)),
       Keeps.files w (exec (FindItems.downloadGlbFile env item) w)).
Proof.
  split_and!.
  - intros dom. unfold IndexJs.main, IndexJs.processPack, IndexJs.processIcon,
      IndexJs.saveMapping.
    files_related env IndexJs.Closure (gmap string string)
      (index_js_handler_keeps_files env).
  - intros dom slugs. unfold Direct.main, Direct.processIcon,
      Direct.use_presignedResponse, Direct.downloadGlbFile.
    files_related env Direct.Closure unit (direct_handler_keeps_files env).
  - intros dom urls. unfold ItemPage.main, ItemPage.processItem,
      ItemPage.processAdditionalItem, ItemPage.use_presignedResponse,
      ItemPage.downloadGlbFile.
    files_related env ItemPage.Closure unit (item_page_handler_keeps_files env).
  - intros item. unfold FindItems.downloadGlbFile.
    files_related env FindItems.Closure (gmap nat string)
      (find_items_handler_keeps_files env).
Qed.

Section KeepsEntries.
Context {H : Type}.

Lemma entries_refl (w : World H (gmap string string)) : Keeps.entries w w.
Proof. by intros k. Qed.

Lemma entries_trans (w1 w2 w3 : World H (gmap string string)) :
  Keeps.entries w1 w2 → Keeps.entries w2 w3 → Keeps.entries w1 w3.
Proof. intros H12 H23 k Hk. by apply H23, H12. Qed.

Lemma entries_emit (e : Event) (w : World H (gmap string string)) :
  Keeps.entries w (emit e w).
Proof. by intros k. Qed.

Lemma entries_listeners (ls : list (nat * H)) (n : nat)
    (w : World H (gmap string string)) :
  Keeps.entries w (set_listeners ls n w).
Proof. by intros k. Qed.

Lemma entries_write (env : Env) (dir name : string) (c : Content)
    (w : World H (gmap string string)) :
  Keeps.entries w (exec (fs_writeFile env dir name c) w).
Proof.
  intros k. unfold exec, fs_writeFile.
  by destruct (fs_target env _ _ _) as [[d f]|].
Qed.

Lemma entries_set (slug uuid : string) (w : World H (gmap string string)) :
  Keeps.entries w (exec (act (λ w0, set_mem (<[slug := uuid]> (mem w0)) w0)) w).
Proof.
  intros k Hk. unfold exec, act. simpl.
  destruct (decide (slug = k)) as [<-|Hne].
  - rewrite lookup_insert_eq. by eexists.
  - by rewrite lookup_insert_ne.
Qed.

End KeepsEntries.

Ltac entries_related env H Ri :=
  related env (@Keeps.entries H) (@entries_refl H) (@entries_trans H)
    (@entries_emit H) (@entries_listeners H) Ri (@entries_write H)
    (@entries_set H).

Lemma index_js_handler_keeps_entries (env : Env) (c : IndexJs.Closure)
    (r : Response) (w : World IndexJs.Closure (gmap string string)) :
  Keeps.entries w (invoke env c r w).
Proof.
  simpl. unfold IndexJs.responseHandler, response_json. revert w.
  entries_related env IndexJs.Closure (@entries_refl IndexJs.Closure).
Qed.

(** X9: The slug-to-identifier map of the pack scraper only grows or is
    overwritten: a slug that has an entry before [main] has one after it,
    whatever happens during the run. *)
Theorem index_js_map_entries_are_never_removed (env : Env)
    (dom : Dom IndexJs.Document) (slug : string)
    (w : World IndexJs.Closure (gmap string string)) :
  is_Some (mem w !! slug) →
  is_Some (mem (exec (IndexJs.main env dom) w) !! slug).
Proof.
  revert slug. change (Keeps.entries w (exec (IndexJs.main env dom) w)).
  revert w. unfold IndexJs.main, IndexJs.processPack, IndexJs.processIcon,
    IndexJs.saveMapping.
  entries_related env IndexJs.Closure (index_js_handler_keeps_entries env).
Qed.

Lemma index_js_map_entries_are_never_removed_witness :
  is_Some (mem (exec (IndexJs.main Scenario.env_fetch_fails Scenario.dom_one_pack)
                  (mkWorld [] 0 {[ "bar" := "def456" ]} ∅ []))
             !! "bar").
Proof.
  apply index_js_map_entries_are_never_removed. vm_compute. by eexists.
Defined.

(** ** Listeners when nothing throws *)

Section KeepsListeners.
Context {H M : Type} `{!Listener H M} `{!QuietListener H M}.

Lemma listeners_refl (w : World H M) : Keeps.page_listeners w w.
Proof. by intros _. Qed.

Lemma listeners_trans (w1 w2 w3 : World H M) :
  Keeps.page_listeners w1 w2 → Keeps.page_listeners w2 w3 →
  Keeps.page_listeners w1 w3.
Proof.
  unfold Keeps.page_listeners, Keeps.fresh_ids.
  intros H12 H23 Hw. destruct (H12 Hw) as [Hl Hn].
  destruct H23 as [Hl' Hn'].
  - rewrite Hl. eapply Forall_impl; [exact Hw|]. simpl. intros l Hlt. lia.
  - split; [congruence | lia].
Qed.

Lemma listeners_emit (e : Event) (w : World H M) :
  Keeps.page_listeners w (emit e w).
Proof. by intros _. Qed.

Lemma listeners_invoke (env : Env) (h : H) (r : Response) (w : World H M) :
  Keeps.page_listeners w (invoke env h r w).
Proof. intros _. by rewrite invoke_listeners, invoke_next_id. Qed.

Lemma listeners_write (env : Env) (dir name : string) (c : Content)
    (w : World H M) :
  Keeps.page_listeners w (exec (fs_writeFile env dir name c) w).
Proof.
  intros _. unfold exec, fs_writeFile.
  by destruct (fs_target env _ _ _) as [[d f]|].
Qed.

Lemma listeners_memory (f : World H M → M) (w : World H M) :
  Keeps.page_listeners w (exec (act (λ w0, set_mem (f w0) w0)) w).
Proof. by intros _. Qed.

(** Registering and removing again leaves the listeners as they were. *)
Lemma filter_out_fresh (ls : list (nat * H)) (n : nat) (h : H) :
  Forall (λ l, l.1 < n) ls →
  List.filter (λ l, negb (Nat.eqb l.1 n)) (ls ++ [(n, h)]) = ls.
Proof.
  intros Hfresh. rewrite List.filter_app. simpl. rewrite Nat.eqb_refl. simpl.
  rewrite app_nil_r.
  induction Hfresh as [|l ls' Hl _ IH]; simpl; [done|].
  destruct (Nat.eqb_spec l.1 n); [lia|]. simpl. by rewrite IH.
Qed.

End KeepsListeners.

Ltac settle Hs :=
  repeat match goal with
  | |- context [goto_load ?env ?t ?u] =>
      let rs := fresh "rs" in
      let settled := fresh "settled" in
      let Hx := fresh "Hx" in
      first [pose proof (Hs t u) as Hx | pose proof (Hs t) as Hx];
      destruct (goto_load env t u) as [rs settled];
      simpl in Hx; subst settled; run
  end.

Ltac framed :=
  repeat match goal with
  | |- context [listeners (deliver_all ?e ?rs ?w)] =>
      rewrite (proj1 (deliver_all_frame e rs w)); simpl
  | |- context [next_id (deliver_all ?e ?rs ?w)] =>
      rewrite (proj1 (proj2 (deliver_all_frame e rs w))); simpl
  end.

Lemma index_js_icon_keeps_listeners (env : Env) (packDir slug : string)
    (w : World IndexJs.Closure (gmap string string)) :
  (∀ t, (goto_load env t (create_url slug)).2 = true) →
  Keeps.page_listeners w (exec (IndexJs.processIcon env packDir slug) w).
Proof.
  intros Hs Hfresh. unfold IndexJs.processIcon, fs_readdirSync. run.
  destruct (IndexJs.fileExists _ _); [done|].
  settle Hs. framed. split; [by apply filter_out_fresh | lia].
Qed.

Ltac listeners_related env H M :=
  related env (@Keeps.page_listeners H M) (@listeners_refl H M)
    (@listeners_trans H M) (@listeners_emit H M) (@listeners_refl H M)
    (@listeners_invoke H M _ _ env) (@listeners_write H M)
    (@listeners_memory H M).

(** X12: The pack scraper leaves the page's listeners as it found them when the
    navigations to the create pages of the icons settle, whatever the
    listing page and the pack pages do: no handler of the run stays
    registered. *)
Theorem index_js_leaves_no_listener_when_icon_pages_settle (env : Env)
    (dom : Dom IndexJs.Document)
    (w : World IndexJs.Closure (gmap string string)) :
  (∀ t slug, (goto_load env t (create_url slug)).2 = true) →
  Keeps.fresh_ids w →
  listeners (exec (IndexJs.main env dom) w) = listeners w.
Proof.
  intros Hs Hfresh.
  cut (Keeps.page_listeners w (exec (IndexJs.main env dom) w));
    [intros Hk; exact (proj1 (Hk Hfresh))|].
  clear Hfresh. revert w.
  unfold IndexJs.main, IndexJs.processPack, IndexJs.saveMapping.
  listeners_related env IndexJs.Closure (gmap string string);
    intros; apply index_js_icon_keeps_listeners; intros; apply Hs.
Qed.

Lemma index_js_leaves_no_listener_when_icon_pages_settle_witness :
  listeners (exec (IndexJs.main (Runs.env_silent BodyNull) Scenario.dom_one_pack)
               (IndexJs.start ∅)) = [].
Proof.
  apply (index_js_leaves_no_listener_when_icon_pages_settle
           (Runs.env_silent BodyNull) Scenario.dom_one_pack (IndexJs.start ∅)).
  - reflexivity.
  - constructor.
Defined.




(** X14: When the in-page fetch answers the JSON value [null], reading
    [presignedResponse.error] throws: the direct downloader gives the icon
    up without removing its handler, which stays registered for the icons
    that follow. *)
Theorem direct_null_answer_leaves_the_listener (env : Env)
    (dom : Dom Direct.Document) (slug uuid : string)
    (w : World Direct.Closure unit) :
  (∀ t, (goto_load env t (create_url slug)).2 = true) →
  (∀ t, Regex.design_uuid (Direct.currentUrl (dom t)) = Some uuid) →
  (∀ t url, page_fetch env t url = BodyNull) →
  listeners (exec (Direct.processIcon env dom slug) w)
  = listeners w ++ [(next_id w, Direct.mkClosure slug)].
Proof.
  intros Hs Hu Hn.
  unfold Direct.processIcon, Direct.use_presignedResponse,
    Direct.evaluate_fetch. run.
  settle Hs. rewrite Hu. run. rewrite Hn. run. by framed.
Qed.

Lemma direct_null_answer_leaves_the_listener_witness :
  listeners (exec (Direct.processIcon (Runs.env_silent BodyNull)
                     Runs.dom_redirected "foo")
               (Direct.start ∅))
  = [] ++ [(0, Direct.mkClosure "foo")].
Proof.
  apply (direct_null_answer_leaves_the_listener (Runs.env_silent BodyNull)
           Runs.dom_redirected "foo" "0f8e-42" (Direct.start ∅)).
  - reflexivity.
  - reflexivity.
  - reflexivity.
Defined.

(** ** Resuming the pack scraper *)

Lemma readdir_In (d : Disk) (dir name : string) :
  In name (readdir d dir) → is_Some (d !! (dir, name)).
Proof.
  unfold readdir. intros Hin. apply in_map_iff in Hin.
  destruct Hin as ([[dir' name'] c] & Hname & Hin). simpl in Hname. subst name'.
  apply filter_In in Hin. destruct Hin as [Hin Hdir]. simpl in Hdir.
  apply String.eqb_eq in Hdir. subst dir'.
  apply list_elem_of_In, elem_of_map_to_list in Hin. by eexists.
Qed.

Lemma fileExists_kept (d d' : Disk) (dir slug : string) :
  (∀ k, is_Some (d !! k) → is_Some (d' !! k)) →
  IndexJs.fileExists (readdir d dir) slug = true →
  IndexJs.fileExists (readdir d' dir) slug = true.
Proof.
  intros Hk Hex. unfold IndexJs.fileExists in *.
  apply existsb_exists in Hex. destruct Hex as (name & Hin & Hname).
  apply existsb_exists. exists name. split; [|done].
  destruct (Hk _ (readdir_In _ _ _ Hin)) as [c Hc].
  by eapply readdir_lists_file.
Qed.

Section IconFile.
Context {H M : Type}.
Variables dir slug : string.

Lemma icon_file_refl (w : World H M) : Keeps.icon_file dir slug w w.
Proof. split; [by intros k | by left]. Qed.

Lemma icon_file_trans (w1 w2 w3 : World H M) :
  Keeps.icon_file dir slug w1 w2 → Keeps.icon_file dir slug w2 w3 →
  Keeps.icon_file dir slug w1 w3.
Proof.
  intros [Hk12 H12] [Hk23 H23]. split.
  - intros k Hk. by apply Hk23, Hk12.
  - destruct H23 as [H23|H23]; [|by right].
    rewrite H23. destruct H12 as [H12|H12]; [left; congruence | by right].
Qed.

Lemma icon_file_emit (e : Event) (w : World H M) :
  Keeps.icon_file dir slug w (emit e w).
Proof. split; [by intros k | by left]. Qed.

Lemma icon_file_listeners (ls : list (nat * H)) (n : nat) (w : World H M) :
  Keeps.icon_file dir slug w (set_listeners ls n w).
Proof. split; [by intros k | by left]. Qed.

End IconFile.

Lemma index_js_handler_icon_file (env : Env) (dir slug : string) (r : Response)
    (w : World IndexJs.Closure (gmap string string)) :
  Text.has_char "/" slug = false →
  Keeps.icon_file dir slug w (invoke env (IndexJs.mkClosure slug dir) r w).
Proof.
  intros Hslug. split; [apply index_js_handler_keeps_files|].
  simpl. unfold IndexJs.responseHandler. run.
  cases; try (by left). right.
  match goal with
  | Ht : fs_target _ _ _ _ = Some _ |- _ =>
      apply fs_target_plain_inv in Ht as [-> ->];
        [|apply glb_filename_clean; [done | apply uuid_of_url_no_slash]]
  end.
  apply index_js_finds_stored_icon.
Qed.

Lemma deliver_all_single {H M : Type} `{!Listener H M} `{!QuietListener H M}
    (R : World H M → World H M → Prop) (env : Env) (n : nat) (h : H) :
  (∀ w, R w w) → (∀ w1 w2 w3, R w1 w2 → R w2 w3 → R w1 w3) →
  (∀ r w, R w (invoke env h r w)) →
  ∀ rs w, listeners w = [(n, h)] → R w (deliver_all env rs w).
Proof.
  intros Rr Rt Ri rs. unfold deliver_all.
  induction rs as [|r rs IH]; intros w Hl; simpl; [apply Rr|].
  assert (Hd : deliver env r w = invoke env h r w)
    by (unfold deliver; by rewrite Hl).
  rewrite Hd. eapply Rt; [apply Ri|]. apply IH.
  by rewrite invoke_listeners.
Qed.

Lemma index_js_icon_file (env : Env) (dir slug : string)
    (w : World IndexJs.Closure (gmap string string)) :
  Text.has_char "/" slug = false →
  listeners w = [] →
  Keeps.icon_file dir slug w (exec (IndexJs.processIcon env dir slug) w).
Proof.
  intros Hslug Hl. unfold IndexJs.processIcon, fs_readdirSync. run.
  destruct (IndexJs.fileExists _ _); [apply icon_file_refl|].
  rewrite Hl. simpl.
  pose proof (deliver_all_single
                (Keeps.icon_file (H:=IndexJs.Closure) (M:=gmap string string)
                   dir slug)
                env (next_id w) (IndexJs.mkClosure slug dir)
                (icon_file_refl dir slug) (icon_file_trans dir slug)
                (λ r w0, index_js_handler_icon_file env dir slug r w0 Hslug))
    as Hd.
  destruct (goto_load env _ _) as [rs [|]]; run.
  - eapply icon_file_trans; [|apply icon_file_emit].
    eapply icon_file_trans; [|apply icon_file_listeners].
    eapply icon_file_trans; [|apply Hd].
    + eapply icon_file_trans; [|apply icon_file_emit].
      eapply icon_file_trans; [|apply Hd; reflexivity].
      eapply icon_file_trans; [|apply icon_file_emit].
      eapply icon_file_trans; [|apply icon_file_emit].
      apply icon_file_listeners.
    + simpl. by rewrite (proj1 (deliver_all_frame env rs _)).
  - eapply icon_file_trans; [|apply Hd; reflexivity].
    eapply icon_file_trans; [|apply icon_file_emit].
    eapply icon_file_trans; [|apply icon_file_emit].
    apply icon_file_listeners.
Qed.

(** X15: Resuming the pack scraper: starting from a page without listeners, an
    icon whose slug holds no [/] and whose processing changed anything on
    the disk is skipped the next time it is met, in this run or a later one,
    whatever the site then answers. (With a [/] in the slug the file is
    written outside the pack directory, if at all, and the dedup check never
    sees it.) *)
Theorem index_js_icon_that_stored_is_skipped_next_time (env env' : Env)
    (dir slug : string) (key : string * string)
    (w : World IndexJs.Closure (gmap string string)) :
  Text.has_char "/" slug = false →
  listeners w = [] →
  disk (exec (IndexJs.processIcon env dir slug) w) !! key ≠ disk w !! key →
  IndexJs.processIcon env' dir slug (exec (IndexJs.processIcon env dir slug) w)
  = (Normal tt, exec (IndexJs.processIcon env dir slug) w).
Proof.
  intros Hslug Hl Hkey.
  destruct (index_js_icon_file env dir slug w Hslug Hl) as [_ [Hsame|Hex]];
    [by rewrite Hsame in Hkey|].
  generalize dependent (exec (IndexJs.processIcon env dir slug) w).
  intros w' _ Hex. unfold IndexJs.processIcon at 1, fs_readdirSync. run.
  by rewrite Hex.
Qed.

Lemma index_js_icon_that_stored_is_skipped_next_time_witness :
  IndexJs.processIcon Scenario.env_timeout "glb/pack" "foo"
    (exec (IndexJs.processIcon Scenario.env_resolves "glb/pack" "foo")
       (IndexJs.start ∅))
  = (Normal tt,
     exec (IndexJs.processIcon Scenario.env_resolves "glb/pack" "foo")
       (IndexJs.start ∅)).
Proof.
  apply (index_js_icon_that_stored_is_skipped_next_time Scenario.env_resolves
           Scenario.env_timeout "glb/pack" "foo" ("glb/pack", "foo__abc123.glb")).
  - reflexivity.
  - reflexivity.
  - vm_compute. discriminate.
Defined.

(** ** What [downloadGlbFile] of [find-items.js] reports *)

Lemma find_items_deliver_all_disk (env : Env) (rs : list Response)
    (w : World FindItems.Closure (gmap nat string)) :
  disk (deliver_all env rs w) = disk w.
Proof.
  apply (deliver_all_kept env (λ w w', disk w' = disk w)); try done.
  - intros w1 w2 w3 H12 H23. congruence.
  - intros h r w0. simpl. unfold FindItems.handleResponse. run.
    cases; reflexivity.
Qed.

(** X16: [downloadGlbFile] of [find-items.js] never throws, and its answer tells
    what it did to the disk: [true] when it wrote the file [<slug>.glb] of
    the item into the folder of its pack and nothing else, [false] when it
    left the disk as it was. *)
Theorem find_items_download_reports_what_it_wrote (env : Env)
    (item : FindItems.Item) (w : World FindItems.Closure (gmap nat string)) :
  let slug := JS.pop (JS.split "/" (FindItems.itemUrl item)) in
  let folder :=
    FindItems.DOWNLOAD_DIR +:+ "/" +:+
    (if String.eqb (FindItems.packName item) "" then "unknown-pack"
     else FindItems.packName item) in
  let r := FindItems.downloadGlbFile env item w in
  (r.1 = Normal true
   ∧ ∃ data, disk r.2 = <[(folder, slug +:+ ".glb") := Binary data]> (disk w))
  ∨ (r.1 = Normal false ∧ disk r.2 = disk w).
Proof.
  intros slug folder r. subst r. unfold FindItems.downloadGlbFile. run.
  destruct (goto_load env _ _) as [rs [|]]; run;
    [|right; by repeat (rewrite find_items_deliver_all_disk; simpl)].
  destruct (nav_wait env _) as [rs' [|]]; run;
    [|right; by repeat (rewrite find_items_deliver_all_disk; simpl)].
  match goal with
  | |- context [match ?x with Some _ => _ | None => _ end] => destruct x
  end; run;
    [|right; by repeat (rewrite find_items_deliver_all_disk; simpl)].
  destruct (axios_get env _ _); run;
    [|right; by repeat (rewrite find_items_deliver_all_disk; simpl)].
  match goal with
  | |- context [fs_target env ?t ?dir ?name] =>
      destruct (fs_target env t dir name) as [[d f]|] eqn:Ht; run;
        [apply fs_target_plain_inv in Ht as [-> ->]; [|apply item_glb_clean]
        |right; by repeat (rewrite find_items_deliver_all_disk; simpl)]
  end.
  left. split; [done|]. eexists.
  repeat (rewrite find_items_deliver_all_disk; simpl).
  subst slug folder. unfold JS.truthy. simpl.
  by destruct (String.eqb (FindItems.packName item) "").
Qed.

(** ** Pagination only appends *)

(** X17: The pagination loop of [find-items.js] never throws, a failed wait for
    the next page being caught inside it, and the list it returns starts
    with the list it was given, in the same order: later pages only append,
    and a list without repetition stays one. *)
Theorem paginate_only_appends (env : Env) (dom : Dom FindItems.Document)
    (getUrls : FindItems.Document → list string) (fuel : nat)
    (all : list string) (w : World FindItems.Closure (gmap nat string)) :
  ∃ res, (FindItems.paginate env dom fuel getUrls all w).1 = Normal res
         ∧ ∀ l, res = Some l →
                (∃ more, l = all ++ more) ∧ (List.NoDup all → List.NoDup l).
Proof.
  revert all w. induction fuel as [|fuel IH]; intros all w; simpl.
  - exists None. split; [done|]. discriminate.
  - unfold FindItems.click_next. run.
    assert (Hsame : ∃ res : option (list string),
              Normal (Some all) = Normal res
              ∧ ∀ l, res = Some l →
                     (∃ more, l = all ++ more)
                     ∧ (List.NoDup all → List.NoDup l)).
    { exists (Some all). split; [done|]. intros l [= <-].
      split; [|done]. exists []. by rewrite app_nil_r. }
    destruct (FindItems.hasNextPage _); simpl; [|exact Hsame].
    destruct (FindItems.nextPageClicked _); simpl; [|exact Hsame].
    destruct (nav_wait env _) as [rs [|]]; simpl; [|exact Hsame].
    match goal with
    | |- context [FindItems.paginate env dom fuel getUrls ?a ?w0] =>
        destruct (IH a w0) as (res & Hres & Hl);
        destruct (FindItems.paginate env dom fuel getUrls a w0) as [c w1]
    end.
    simpl in *. exists res. split; [done|]. intros l Hl'.
    destruct (Hl l Hl') as [[more ->] Hnd].
    match goal with
    | |- context [fold_left JS.push_unique ?urls all] =>
        destruct (fold_push_unique_prefix urls all) as (added & Hadded);
        rewrite Hadded in *
    end.
    split.
    + exists (added ++ more). by rewrite app_assoc.
    + intros Hall. apply Hnd. rewrite <- Hadded.
      by apply fold_push_unique_NoDup.
Qed.

(** ** Resolution by the page itself *)



(** ** The item-page downloader *)

Lemma ItemPage_quiet : QuietListener ItemPage.Closure unit.
Proof.
  split; intros env h r w; simpl;
    unfold ItemPage.createResponseHandler, ItemPage.downloadGlbFile; run.
  - cases; reflexivity.
  - cases; reflexivity.
  - cases; quiet_events.
Qed.

#[global] Existing Instance ItemPage_quiet.






